(** * UCI options of the engine: a shallow embedding of [src/ucioption.cpp]

    The file follows the source top to bottom: characters and the C library
    helpers the code calls ([tolower], [std::stoi], [std::to_string]), the
    [Option] cell with its constructors and conversion operators, the
    assignment operator, the case-insensitive map and its registration
    operator, the catalogue built by [init], and the printer. *)

From Stdlib Require Import ZArith NArith Bool List Ascii String Lia.
From Stdlib Require Import Permutation FinFun.
Import ListNotations.

Open Scope string_scope.
Open Scope Z_scope.

(** Comparison of [std::string]s, written as in the source. *)
Infix "==" := String.eqb (at level 70, no associativity).
Notation "a != b" := (negb (String.eqb a b)) (at level 70, no associativity).

Module UCI.

(** ** Characters *)

(** A plain [char] promoted to [int].  On the x86 targets of the engine
    [char] is signed, so bytes above 127 are negative. *)
Definition int_of_char (c : ascii) : Z :=
  let n := Z.of_N (N_of_ascii c) in
  if n <? 128 then n else n - 256.

(** [tolower] of the C locale, as glibc has it: of the characters only
    'A'..'Z' are folded; the negative values -128..-2, which a signed [char]
    gives for the bytes 128..254, come back as 128..254, and -1 (EOF) comes
    back as it is. *)
Definition tolower (c : Z) : Z :=
  if (65 <=? c) && (c <=? 90) then c + 32
  else if (-128 <=? c) && (c <=? -2) then c + 256
  else c.

(** [isspace] of the C locale: space and the control characters 9..13. *)
Definition isspace (c : ascii) : bool :=
  let n := N_of_ascii c in
  (N.eqb n 32 || (N.leb 9 n && N.leb n 13))%bool.

Definition isdigit (c : ascii) : bool :=
  let n := N_of_ascii c in (N.leb 48 n && N.leb n 57)%bool.

Definition digit_value (c : ascii) : Z := Z.of_N (N_of_ascii c) - 48.

Definition digit_char (d : Z) : ascii := ascii_of_N (Z.to_N (48 + d)).

(** ** Exceptions and results *)

(** The two exceptions [std::stoi] raises. *)
Inductive exception : Set :=
| invalid_argument
| out_of_range.

(** The ways an expression of the source can end: with a value, by an
    exception that nobody in this file catches, or on a failed [assert]
    (the assertions are taken as compiled in). *)
Inductive result (A : Type) : Type :=
| Ok (a : A)
| Throw (e : exception)
| AssertFail.

Arguments Ok {A} a.
Arguments Throw {A} e.
Arguments AssertFail {A}.

Definition bind {A B : Type} (m : result A) (k : A -> result B) : result B :=
  match m with
  | Ok a => k a
  | Throw e => Throw e
  | AssertFail => AssertFail
  end.

Notation "x <- m ;; k" := (bind m (fun x => k))
  (at level 61, m at next level, right associativity).

(** Short-circuit [&&] and [||] of C++: the right operand is evaluated only
    when the left one does not decide. *)
Definition and_then (a b : result bool) : result bool :=
  x <- a ;; if x then b else Ok false.

Definition or_else (a b : result bool) : result bool :=
  x <- a ;; if x then Ok true else b.

Infix "&&&" := and_then (at level 40, left associativity).
Infix "|||" := or_else (at level 50, left associativity).

(** ** [std::stoi] and [std::to_string] *)

Definition INT_MIN : Z := - 2 ^ 31.
Definition INT_MAX : Z := 2 ^ 31 - 1.

Fixpoint skip_space (s : string) : string :=
  match s with
  | String c r => if isspace c then skip_space r else s
  | EmptyString => s
  end.

(** The digit loop of [strtol] in base 10: it stops at the first character
    that is not a digit. *)
Fixpoint digits (acc : Z) (s : string) : Z :=
  match s with
  | String c r => if isdigit c then digits (acc * 10 + digit_value c) r else acc
  | EmptyString => acc
  end.

(** The optional sign in front of the digits: whether it is a minus, and
    the text after it. *)
Definition sign (s : string) : bool * string :=
  match s with
  | String c r =>
      if Ascii.eqb c "-" then (true, r)
      else if Ascii.eqb c "+" then (false, r)
      else (false, s)
  | EmptyString => (false, s)
  end.

(** [strtol(s, &end, 10)]: leading white space, an optional sign, then the
    longest run of digits.  [None] is "no conversion" ([end == s]). *)
Definition strtol (s : string) : option Z :=
  let '(neg, s2) := sign (skip_space s) in
  match s2 with
  | String c _ =>
      if isdigit c
      then Some (if neg : bool then - digits 0 s2 else digits 0 s2)
      else None
  | EmptyString => None
  end.

(** [std::stoi]: [invalid_argument] when nothing was converted,
    [out_of_range] when the number does not fit an [int]. *)
Definition stoi (s : string) : result Z :=
  match strtol s with
  | None => Throw invalid_argument
  | Some z =>
      if (INT_MIN <=? z) && (z <=? INT_MAX) then Ok z else Throw out_of_range
  end.

(** Decimal digits of a non-negative number, most significant first, put in
    front of [acc].  Eleven rounds cover every [int]. *)
Fixpoint decimal (fuel : nat) (n : Z) (acc : string) : string :=
  match fuel with
  | O => acc
  | S fuel' =>
      let acc' := String (digit_char (n mod 10)) acc in
      if n / 10 =? 0 then acc' else decimal fuel' (n / 10) acc'
  end.

(** [std::to_string(int)], also the way [operator<<] writes an [int]. *)
Definition to_string (v : Z) : string :=
  if v <? 0 then String "-"%char (decimal 11 (- v) EmptyString)
  else decimal 11 v EmptyString.

(** ** The Option cell *)

(** The change actions of the source, lines 41 to 47.  What they do lies in
    other subsystems; here a call is recorded, not executed. *)
Inductive OnChange : Set :=
| on_clear_hash
| on_eval
| on_hash_size
| on_large_pages
| on_logger
| on_threads
| on_tb_path.

(** Modelled from the spec: the class declaration lives in uci.h, which is
    not part of the sources; the fields are the ones the constructors and
    operators of ucioption.cpp read and write.  [on_change] is [None] for a
    null function pointer. *)
Record Option : Type := mkOption {
  defaultValue : string;
  currentValue : string;
  type : string;
  min : Z;
  max : Z;
  idx : N;
  on_change : option OnChange
}.

(** [Option(const char* v, OnChange f)] *)
Definition Option_string (v : string) (f : option OnChange) : Option :=
  mkOption v v "string" 0 0 0%N f.

(** [Option(bool v, OnChange f)] *)
Definition Option_bool (v : bool) (f : option OnChange) : Option :=
  let s := if v then "true" else "false" in
  mkOption s s "check" 0 0 0%N f.

(** [Option(OnChange f)] *)
Definition Option_button (f : option OnChange) : Option :=
  mkOption EmptyString EmptyString "button" 0 0 0%N f.

(** The default constructed cell [std::map::operator[]] creates: the only
    constructor that can be called without an argument is the one of line
    144 with its action left out, so the cell is a button without a change
    action.  Its index is indeterminate in C++ and reads as 0 here; it is
    overwritten before any use. *)
Definition Option_default : Option := Option_button None.

(** [Option(int v, int minv, int maxv, OnChange f)] *)
Definition Option_spin (v minv maxv : Z) (f : option OnChange) : Option :=
  mkOption (to_string v) (to_string v) "spin" minv maxv 0%N f.

Definition set_currentValue (o : Option) (v : string) : Option :=
  mkOption (defaultValue o) v (type o) (min o) (max o) (idx o) (on_change o).

Definition set_idx (o : Option) (i : N) : Option :=
  mkOption (defaultValue o) (currentValue o) (type o) (min o) (max o) i
           (on_change o).

(** [Option::operator int() const] *)
Definition operator_int (o : Option) : result Z :=
  if (type o == "check") || (type o == "spin") then
    if type o == "spin" then stoi (currentValue o)
    else Ok (if currentValue o == "true" then 1 else 0)
  else AssertFail.

(** [Option::operator std::string() const] *)
Definition operator_string (o : Option) : result string :=
  if type o == "string" then Ok (currentValue o) else AssertFail.

(** ** Assignment *)

Definition empty (v : string) : bool :=
  match v with EmptyString => true | _ => false end.

(** The condition of the [if] at lines 180 to 182, operand by operand:
    [stoi] is reached only for a spin cell and a text that is not empty,
    and it is called a second time when the first comparison is false. *)
Definition rejects (o : Option) (v : string) : result bool :=
  (Ok (type o != "button") &&& Ok (empty v))
  ||| (Ok (type o == "check") &&& Ok (v != "true") &&& Ok (v != "false"))
  ||| (Ok (type o == "spin")
       &&& ((z <- stoi v ;; Ok (z <? min o))
            ||| (z <- stoi v ;; Ok (z >? max o)))).

(** One call of a change action: which one, and the cell it was shown. *)
Definition call : Type := (OnChange * Option)%type.

(** What a call of [operator=] leaves behind: how it ended, the cell
    afterwards, and the change actions it ran, in order. *)
Record Outcome : Type := mkOutcome {
  completion : result unit;
  cell : Option;
  fired : list call
}.

(** Lines 188 and 189: the change action, when there is one, is called on
    the cell as it is at that point. *)
Definition notify (o : Option) : list call :=
  match on_change o with
  | Some f => [(f, o)]
  | None => []
  end.

(** [Option& Option::operator=(const string& v)] *)
Definition operator_assign (o : Option) (v : string) : Outcome :=
  if empty (type o) then mkOutcome AssertFail o []
  else
    match rejects o v with
    | Ok true => mkOutcome (Ok tt) o []
    | Ok false =>
        let o' := if type o != "button" then set_currentValue o v else o in
        mkOutcome (Ok tt) o' (notify o')
    | Throw e => mkOutcome (Throw e) o []
    | AssertFail => mkOutcome AssertFail o []
    end.

(** ** The case-insensitive order and the map *)

(** The lambda of line 54. *)
Definition char_less (c1 c2 : ascii) : bool :=
  tolower (int_of_char c1) <? tolower (int_of_char c2).

(** [CaseInsensitiveLess::operator()]: [std::lexicographical_compare] run
    with [char_less]. *)
Fixpoint CaseInsensitiveLess (s1 s2 : string) : bool :=
  match s1, s2 with
  | String c1 r1, String c2 r2 =>
      if char_less c1 c2 then true
      else if char_less c2 c1 then false
      else CaseInsensitiveLess r1 r2
  | EmptyString, String _ _ => true
  | _, EmptyString => false
  end.

(** Modelled from the spec: the typedef of [OptionsMap] lives in uci.h, which
    is not part of the sources; it is a [std::map] from names to cells
    ordered by [CaseInsensitiveLess].  The map is kept as the list of its
    entries in the order an iterator visits them. *)
Definition OptionsMap : Type := list (string * Option).

(** [std::map::find]: the entry whose key is neither below nor above [k]. *)
Fixpoint find (k : string) (om : OptionsMap) : option Option :=
  match om with
  | [] => None
  | (k', o) :: rest =>
      if CaseInsensitiveLess k k' then None
      else if CaseInsensitiveLess k' k then find k rest
      else Some o
  end.

(** [om[k]] used as the target of a write: [f] is applied to the slot of
    [k], which [std::map::operator[]] default-constructs at its place in the
    order when no equivalent key is there yet. *)
Fixpoint operator_subscript (k : string) (f : Option -> Option)
         (om : OptionsMap) : OptionsMap :=
  match om with
  | [] => [(k, f Option_default)]
  | (k', o) :: rest =>
      if CaseInsensitiveLess k k' then (k, f Option_default) :: om
      else if CaseInsensitiveLess k' k
           then (k', o) :: operator_subscript k f rest
           else (k', f o) :: rest
  end.

(** ** Registration *)

Definition SIZE_MAX : N := (2 ^ 64 - 1)%N.

(** [void Option::operator<<(const Option& o)]: the cell becomes a copy of
    [o] and takes the value of the static counter [insert_order], which is
    then incremented (a [size_t], so modulo 2^64).  The result is the new
    counter and the new value of [*this]. *)
Definition operator_lshift (insert_order : N) (this o : Option)
  : N * Option :=
  let this := o in
  ((insert_order + 1) mod (SIZE_MAX + 1), set_idx this insert_order)%N.

(** The state the statements of [init] run in: the static counter of
    [operator<<] and the map handed to [init]. *)
Record State : Type := mkState {
  insert_order : N;
  Options : OptionsMap
}.

(** The counter as its initializer leaves it, and an empty map. *)
Definition process_start : State := mkState 0 [].

(** One statement [o[name] << opt] of [init]. *)
Definition register (st : State) (entry : string * Option) : State :=
  let '(name, opt) := entry in
  let c := insert_order st in
  mkState (fst (operator_lshift c Option_default opt))
          (operator_subscript name
             (fun this => snd (operator_lshift c this opt)) (Options st)).

(** ** The catalogue *)

(** An [unsigned int] passed where an [int] is expected. *)
Definition int_of_unsigned (n : N) : Z :=
  let z := Z.of_N n mod 2 ^ 32 in
  if z <? 2 ^ 31 then z else z - 2 ^ 32.

(** The statements of [init], lines 67 to 107, as (name, constructed cell).
    [n] and [MaxHashMB] are the two locals computed before them. *)
Definition catalog (n : N) (MaxHashMB : Z) : list (string * Option) :=
  [ ("Tactical Mode",         Option_bool false None);
    ("Debug Log File",        Option_string EmptyString (Some on_logger));
    ("Contempt",              Option_spin 0 (-100) 100 None);
    ("Threads",               Option_spin (int_of_unsigned n) 1 512
                                          (Some on_threads));
    ("Hash",                  Option_spin 16 1 MaxHashMB (Some on_hash_size));
    ("Clear Hash",            Option_button (Some on_clear_hash));
    ("Ponder",                Option_bool false None);
    ("Material(mg)",          Option_spin 100 0 300 (Some on_eval));
    ("Material(eg)",          Option_spin 100 0 300 (Some on_eval));
    ("Imbalance(mg)",         Option_spin 100 0 300 (Some on_eval));
    ("Imbalance(eg)",         Option_spin 100 0 300 (Some on_eval));
    ("PawnStructure(mg)",     Option_spin 100 0 300 (Some on_eval));
    ("PawnStructure(eg)",     Option_spin 100 0 300 (Some on_eval));
    ("Mobility(mg)",          Option_spin 100 0 300 (Some on_eval));
    ("Mobility(eg)",          Option_spin 100 0 300 (Some on_eval));
    ("PassedPawns(mg)",       Option_spin 100 0 300 (Some on_eval));
    ("PassedPawns(eg)",       Option_spin 100 0 300 (Some on_eval));
    ("KingSafety(mg)",        Option_spin 100 0 300 (Some on_eval));
    ("KingSafety(eg)",        Option_spin 100 0 300 (Some on_eval));
    ("Threats(mg)",           Option_spin 100 0 300 (Some on_eval));
    ("Threats(eg)",           Option_spin 100 0 300 (Some on_eval));
    ("Space",                 Option_spin 100 0 300 (Some on_eval));
    ("Razoring",              Option_bool true None);
    ("Futility",              Option_bool true None);
    ("NullMove",              Option_bool true None);
    ("ProbCut",               Option_bool true None);
    ("Pruning",               Option_bool true None);
    ("LMR",                   Option_bool true None);
    ("MaxLMR",                Option_spin 10 0 20 None);
    ("MultiPV",               Option_spin 1 1 500 None);
    ("Skill Level",           Option_spin 20 0 20 None);
    ("Move Overhead",         Option_spin 30 0 5000 None);
    ("Minimum Thinking Time", Option_spin 20 0 5000 None);
    ("Large Pages",           Option_bool true (Some on_large_pages));
    ("Slow Mover",            Option_spin 89 10 1000 None);
    ("nodestime",             Option_spin 0 0 10000 None);
    ("UCI_Chess960",          Option_bool false None);
    ("SyzygyPath",            Option_string "<empty>" (Some on_tb_path));
    ("SyzygyProbeDepth",      Option_spin 1 1 100 None);
    ("Syzygy50MoveRule",      Option_bool true None);
    ("SyzygyProbeLimit",      Option_spin 6 0 6 None) ].

(** [void init(OptionsMap& o)].  [hardware_concurrency] is what
    [std::thread::hardware_concurrency()] returns and [Is64Bit] the constant
    of types.h; the statements run one after the other on the state. *)
Definition init (hardware_concurrency : N) (Is64Bit : bool) (st : State)
  : State :=
  let MaxHashMB := if Is64Bit then 1024 * 1024 else 2048 in
  let n := hardware_concurrency in
  let n := if N.eqb n 0 then 1%N else n in
  fold_left register (catalog n MaxHashMB) st.

(** ** The printer *)

Definition newline : string := String (ascii_of_nat 10) EmptyString.

(** The body of the inner [if] at lines 120 to 127: what is written for one
    entry. *)
Definition print_option (name : string) (o : Option) : string :=
  newline ++ "option name " ++ name ++ " type " ++ type o
  ++ (if type o != "button" then " default " ++ defaultValue o
      else EmptyString)
  ++ (if type o == "spin"
      then " min " ++ to_string (min o) ++ " max " ++ to_string (max o)
      else EmptyString).

(** The inner loop: the first entry, in map order, whose [idx] is [i]; the
    [break] ends the search there. *)
Fixpoint first_with_idx (i : N) (om : OptionsMap) : option (string * Option) :=
  match om with
  | [] => None
  | (name, o) :: rest =>
      if N.eqb (idx o) i then Some (name, o) else first_with_idx i rest
  end.

(** The outer loop from [i] on, with [count] rounds left. *)
Fixpoint print_from (count : nat) (i : N) (om : OptionsMap) : string :=
  match count with
  | O => EmptyString
  | S count' =>
      match first_with_idx i om with
      | Some (name, o) => print_option name o
      | None => EmptyString
      end ++ print_from count' (N.succ i) om
  end.

(** [std::ostream& operator<<(std::ostream& os, const OptionsMap& om)]: the
    text appended to [os]. *)
Definition operator_print (om : OptionsMap) : string :=
  print_from (List.length om) 0 om.

(** ** The vocabulary of the specification *)

(** The four kinds of the specification and the type tags that stand for
    them in the source. *)
Inductive Kind : Set := Toggle | Spin | Button | Text.

Definition kindName (k : Kind) : string :=
  match k with
  | Text => "string"
  | Toggle => "check"
  | Button => "button"
  | Spin => "spin"
  end.

Definition kind_of (o : Option) : option Kind :=
  if type o == "string" then Some Text
  else if type o == "check" then Some Toggle
  else if type o == "button" then Some Button
  else if type o == "spin" then Some Spin
  else None.

(** The validation policy in the words of the specification (section 4.1):
    an assignment is rejected when the kind is not Button and the text is
    empty, or the kind is Toggle and the text is neither true nor false, or
    the kind is Spin and the text does not parse or parses outside the
    bounds.  It is compared with [rejects], which follows the source. *)
Definition spec_rejected (k : Kind) (o : Option) (v : string) : bool :=
  match k with
  | Button => false
  | Text => empty v
  | Toggle => negb ((v == "true") || (v == "false"))
  | Spin =>
      match stoi v with
      | Ok z => negb ((min o <=? z) && (z <=? max o))
      | _ => true
      end
  end.

(** The invariant the specification states for a spin cell:
    [min <= max] and [min <= parse(currentValue) <= max]. *)
Definition spin_invariant (o : Option) : bool :=
  (min o <=? max o)
  && match stoi (currentValue o) with
     | Ok z => (min o <=? z) && (z <=? max o)
     | _ => false
     end.

(** The line of the declaration format for one setting, in the words of the
    specification (section 4.5).  It is compared with [print_option], which
    follows the source. *)
Definition declaration (name : string) (k : Kind) (o : Option) : string :=
  newline ++ "option name " ++ name ++ " type " ++ kindName k
  ++ match k with
     | Button => EmptyString
     | Spin => " default " ++ defaultValue o
               ++ " min " ++ to_string (min o) ++ " max " ++ to_string (max o)
     | Toggle | Text => " default " ++ defaultValue o
     end.

Definition declaration_of (e : string * Option) : string :=
  match kind_of (snd e) with
  | Some k => declaration (fst e) k (snd e)
  | None => EmptyString
  end.

(** A name after ASCII lower-casing of each of its characters. *)
Fixpoint lowercase (s : string) : list Z :=
  match s with
  | String c r => tolower (int_of_char c) :: lowercase r
  | EmptyString => []
  end.

(** The insertion indices [0 .. n-1]. *)
Definition indices (n : nat) : list N := map N.of_nat (seq 0 n).

Definition entry_idx (e : string * Option) : N := idx (snd e).

(** Whether a text goes on with a digit. *)
Definition starts_with_digit (t : string) : bool :=
  match t with
  | String c _ => isdigit c
  | EmptyString => false
  end.

(** The texts written one after the other. *)
Definition join (l : list string) : string :=
  fold_right String.append EmptyString l.

(** The names of the catalogue, in the order of the statements of [init]. *)
Definition catalog_names : list string := map fst (catalog 1 2048).

(** What the printer writes for an entry. *)
Definition print_entry (e : string * Option) : string :=
  print_option (fst e) (snd e).

(** The entry the inner loop of the printer stops at in round [i], if any. *)
Definition found (om : OptionsMap) (i : N) : list (string * Option) :=
  match first_with_idx i om with
  | Some e => [e]
  | None => []
  end.

(** The entries the printer visits, in the order it visits them. *)
Definition visited (om : OptionsMap) : OptionsMap :=
  flat_map (found om) (indices (List.length om)).

(** Two keys are the same key for the map when neither is below the
    other. *)
Definition equivalent (k1 k2 : string) : bool :=
  negb (CaseInsensitiveLess k1 k2) && negb (CaseInsensitiveLess k2 k1).

(** No two names of the list are the same key. *)
Fixpoint distinct_names (names : list string) : bool :=
  match names with
  | [] => true
  | k :: rest =>
      forallb (fun k' => negb (equivalent k k')) rest && distinct_names rest
  end.

(** The cell [om[k]] refers to before a write: the one that is there, or
    the default constructed one. *)
Definition slot (k : string) (om : OptionsMap) : Option :=
  match find k om with
  | Some o => o
  | None => Option_default
  end.

(** The entries of a map are in strictly ascending order of their keys:
    what [std::map] maintains and what its iterator shows. *)
Inductive ordered : OptionsMap -> Prop :=
| ordered_nil : ordered []
| ordered_cons (k : string) (o : Option) (rest : OptionsMap) :
    Forall (fun e => CaseInsensitiveLess k (fst e) = true) rest ->
    ordered rest ->
    ordered ((k, o) :: rest).

(** A list of numbers within another, as a check that computes. *)
Definition all_among (l1 l2 : list N) : bool :=
  forallb (fun x => existsb (N.eqb x) l2) l1.

(** ** Operations run one after the other *)

(** The cell after the assignments [vs], each through [operator=], in
    order. *)
Definition assign_all (o : Option) (vs : list string) : Option :=
  fold_left (fun o v => cell (operator_assign o v)) vs o.

(** The expression [om[k] = v]: [std::map::operator[]] gives the slot and
    [operator=] assigns to it; the map afterwards. *)
Definition assign_at (k v : string) (om : OptionsMap) : OptionsMap :=
  operator_subscript k (fun o => cell (operator_assign o v)) om.

End UCI.

Import UCI.

(** * Properties *)

(** ** The condition of [operator=], kind by kind *)

Section Rejects.

Variables (o : Option) (v : string).

Lemma rejects_button : type o = "button" -> rejects o v = Ok false.
Proof. intros H. unfold rejects. rewrite H. reflexivity. Qed.

Lemma rejects_string : type o = "string" -> rejects o v = Ok (empty v).
Proof.
  intros H. unfold rejects. rewrite H. cbn.
  destruct (empty v); reflexivity.
Qed.

Lemma rejects_check :
  type o = "check" ->
  rejects o v = Ok (negb ((v == "true") || (v == "false"))).
Proof.
  intros H. unfold rejects. rewrite H. cbn.
  destruct v as [|c r]; [reflexivity|]. cbn [empty].
  destruct (String c r == "true"), (String c r == "false"); reflexivity.
Qed.

Lemma rejects_spin :
  type o = "spin" ->
  rejects o v =
    if empty v then Ok true
    else z <- stoi v ;; Ok ((z <? min o) || (z >? max o)).
Proof.
  intros H. unfold rejects. rewrite H.
  change ("spin" != "button") with true.
  change ("spin" == "check") with false.
  change ("spin" == "spin") with true.
  unfold and_then, or_else, bind.
  destruct (empty v); [reflexivity|].
  destruct (stoi v) as [z| |]; [|reflexivity|reflexivity].
  destruct (z <? min o); reflexivity.
Qed.

End Rejects.

(** [stoi] converts nothing out of the empty text. *)
Lemma stoi_nonempty (v : string) (z : Z) : stoi v = Ok z -> empty v = false.
Proof. destruct v; [discriminate|reflexivity]. Qed.

(** [stoi] has no [assert] in it. *)
Lemma stoi_no_assert (v : string) : stoi v <> AssertFail.
Proof.
  unfold stoi. destruct (strtol v); [|discriminate].
  destruct (_ && _); discriminate.
Qed.

Lemma set_currentValue_same (o : Option) :
  set_currentValue o (currentValue o) = o.
Proof. destruct o; reflexivity. Qed.

Lemma type_nonempty (o : Option) (k : string) :
  type o = k -> empty k = false -> empty (type o) = false.
Proof. intros ->; trivial. Qed.

(** ** Assignment to a spin cell *)

Section AssignSpin.

Variable o : Option.
Hypothesis spin : type o = "spin".

Lemma assign_spin_in (v : string) (z : Z) :
  stoi v = Ok z -> min o <= z <= max o ->
  operator_assign o v =
    mkOutcome (Ok tt) (set_currentValue o v) (notify (set_currentValue o v)).
Proof.
  intros Hz Hb. unfold operator_assign.
  rewrite (type_nonempty o _ spin eq_refl), (rejects_spin o v spin).
  rewrite (stoi_nonempty _ _ Hz), Hz. cbn [bind].
  replace (z <? min o) with false by (symmetry; apply Z.ltb_ge; lia).
  replace (z >? max o) with false
    by (symmetry; rewrite Z.gtb_ltb; apply Z.ltb_ge; lia).
  rewrite spin. reflexivity.
Qed.

Lemma assign_spin_out (v : string) (z : Z) :
  stoi v = Ok z -> z < min o \/ max o < z ->
  operator_assign o v = mkOutcome (Ok tt) o [].
Proof.
  intros Hz Hb. unfold operator_assign.
  rewrite (type_nonempty o _ spin eq_refl), (rejects_spin o v spin).
  rewrite (stoi_nonempty _ _ Hz), Hz. cbn [bind].
  replace ((z <? min o) || (z >? max o))%bool with true; [reflexivity|].
  symmetry. apply orb_true_iff. rewrite Z.gtb_ltb, !Z.ltb_lt. lia.
Qed.

Lemma assign_spin_throw (v : string) (e : exception) :
  empty v = false -> stoi v = Throw e ->
  operator_assign o v = mkOutcome (Throw e) o [].
Proof.
  intros Hv He. unfold operator_assign.
  rewrite (type_nonempty o _ spin eq_refl), (rejects_spin o v spin), Hv, He.
  reflexivity.
Qed.

Lemma assign_spin_empty :
  operator_assign o EmptyString = mkOutcome (Ok tt) o [].
Proof.
  unfold operator_assign.
  rewrite (type_nonempty o _ spin eq_refl), (rejects_spin o _ spin).
  reflexivity.
Qed.

Lemma read_spin (v : string) :
  operator_int (set_currentValue o v) = stoi v.
Proof. unfold operator_int. cbn. rewrite spin. reflexivity. Qed.

End AssignSpin.

(** C1.  For a spin cell, a text that [stoi] reads as [z] with
    [min <= z <= max] is accepted: the call returns, [currentValue] is that
    text and reading the cell as an integer gives [z]; a text read as a [z]
    below [min] or above [max] is rejected and the cell stays as it was. *)
Theorem spin_assign_by_bounds (o : Option) (v : string) (z : Z) :
  type o = "spin" ->
  stoi v = Ok z ->
  (min o <= z <= max o ->
     completion (operator_assign o v) = Ok tt
     /\ currentValue (cell (operator_assign o v)) = v
     /\ operator_int (cell (operator_assign o v)) = Ok z)
  /\ (z < min o \/ max o < z ->
     completion (operator_assign o v) = Ok tt
     /\ cell (operator_assign o v) = o
     /\ fired (operator_assign o v) = []).
Proof.
  intros Hs Hz. split; intros Hb.
  - rewrite (assign_spin_in o Hs v z Hz Hb). cbn [completion cell].
    rewrite (read_spin o Hs). auto.
  - rewrite (assign_spin_out o Hs v z Hz Hb). auto.
Qed.

(** Scenario A of the specification: Hash with default 16 and bounds
    [1, 1024] takes 512 and then refuses 2000. *)
Lemma spin_assign_by_bounds_witness :
  let hash := Option_spin 16 1 1024 (Some on_hash_size) in
  let hash' := cell (operator_assign hash "512") in
  (currentValue hash' = "512" /\ operator_int hash' = Ok 512)
  /\ (cell (operator_assign hash' "2000") = hash'
      /\ fired (operator_assign hash' "2000") = []).
Proof.
  cbv zeta.
  destruct (spin_assign_by_bounds (Option_spin 16 1 1024 (Some on_hash_size))
              "512" 512 eq_refl eq_refl) as [Hin _].
  destruct (spin_assign_by_bounds
              (cell (operator_assign
                       (Option_spin 16 1 1024 (Some on_hash_size)) "512"))
              "2000" 2000 eq_refl eq_refl) as [_ Hout].
  split.
  - apply Hin. cbn. lia.
  - apply Hout. right. cbn. lia.
Defined.

(** C2, as the code has it.  For a spin cell and a text that is not empty
    and out of which [stoi] converts no [int] (no number at its start, or a
    number outside the range of [int]), the call does not return: the
    exception of [stoi] leaves [operator=].  The cell is unchanged and no
    change action has run. *)
Theorem spin_assign_unparsable_throws (o : Option) (v : string)
        (e : exception) :
  type o = "spin" ->
  empty v = false ->
  stoi v = Throw e ->
  completion (operator_assign o v) = Throw e
  /\ cell (operator_assign o v) = o
  /\ fired (operator_assign o v) = [].
Proof.
  intros Hs Hv He. rewrite (assign_spin_throw o Hs v e Hv He). auto.
Qed.

Lemma spin_assign_unparsable_throws_witness :
  let hash := Option_spin 16 1 1024 (Some on_hash_size) in
  completion (operator_assign hash "2147483648") = Throw out_of_range
  /\ cell (operator_assign hash "2147483648") = hash
  /\ fired (operator_assign hash "2147483648") = [].
Proof.
  exact (spin_assign_unparsable_throws
           (Option_spin 16 1 1024 (Some on_hash_size)) "2147483648"
           out_of_range eq_refl eq_refl eq_refl).
Defined.

(** C2 as stated fails: the text abc is not empty and is no integer, and the
    assignment to Hash ends by the exception [invalid_argument], which is
    not a normal return. *)
Lemma spin_assign_abc_does_not_return :
  let hash := Option_spin 16 1 1024 (Some on_hash_size) in
  empty "abc" = false
  /\ stoi "abc" = Throw invalid_argument
  /\ completion (operator_assign hash "abc") = Throw invalid_argument
  /\ completion (operator_assign hash "abc") <> Ok tt.
Proof.
  cbv zeta. split; [reflexivity|]. split; [reflexivity|].
  split; [reflexivity|discriminate].
Qed.

(** ** Toggle and Button cells *)

(** C6.  A check cell accepts exactly the texts true and false: with one
    of them the call returns, [currentValue] is the text, the cell reads as
    1 for true and 0 for false, nothing else of the cell has changed and the
    change action, if any, has run once on the cell in its new state; with
    any other text, the empty one included, the call returns with the cell
    unchanged and no change action run. *)
Theorem check_assign_true_false_only (o : Option) (v : string) :
  type o = "check" ->
  completion (operator_assign o v) = Ok tt
  /\ (v = "true" \/ v = "false" ->
      currentValue (cell (operator_assign o v)) = v
      /\ operator_int (cell (operator_assign o v))
         = Ok (if v == "true" then 1 else 0)
      /\ (type (cell (operator_assign o v)) = type o
          /\ defaultValue (cell (operator_assign o v)) = defaultValue o
          /\ min (cell (operator_assign o v)) = min o
          /\ max (cell (operator_assign o v)) = max o
          /\ idx (cell (operator_assign o v)) = idx o
          /\ on_change (cell (operator_assign o v)) = on_change o)
      /\ fired (operator_assign o v)
         = match on_change o with
           | Some f => [(f, cell (operator_assign o v))]
           | None => []
           end
      /\ cell (operator_assign o v) = set_currentValue o v
      /\ fired (operator_assign o v) = notify (set_currentValue o v))
  /\ (v <> "true" /\ v <> "false" ->
      cell (operator_assign o v) = o
      /\ currentValue (cell (operator_assign o v)) = currentValue o
      /\ fired (operator_assign o v) = []).
Proof.
  intros Hc.
  assert (Hacc : v = "true" \/ v = "false" ->
                 operator_assign o v
                 = mkOutcome (Ok tt) (set_currentValue o v)
                             (notify (set_currentValue o v))).
  { intros Hv. unfold operator_assign.
    rewrite (type_nonempty o _ Hc eq_refl), (rejects_check o v Hc), Hc.
    destruct Hv as [-> | ->]; reflexivity. }
  assert (Hrej : v <> "true" /\ v <> "false" ->
                 operator_assign o v = mkOutcome (Ok tt) o []).
  { intros [Ht Hf]. unfold operator_assign.
    rewrite (type_nonempty o _ Hc eq_refl), (rejects_check o v Hc).
    destruct (String.eqb_spec v "true") as [E|_]; [contradiction|].
    destruct (String.eqb_spec v "false") as [E|_]; [contradiction|].
    reflexivity. }
  split; [|split].
  - destruct (String.eqb_spec v "true") as [Ht|Ht];
      [rewrite Hacc by (left; exact Ht); reflexivity|].
    destruct (String.eqb_spec v "false") as [Hf|Hf];
      [rewrite Hacc by (right; exact Hf); reflexivity|].
    rewrite Hrej by (split; assumption). reflexivity.
  - intros Hv. rewrite (Hacc Hv).
    cbn [cell fired currentValue set_currentValue].
    split; [reflexivity|]. split.
    { unfold operator_int. cbn [type currentValue set_currentValue].
      rewrite Hc. reflexivity. }
    split; [repeat split|].
    split; [|split; reflexivity].
    unfold notify. cbn [on_change set_currentValue].
    destruct (on_change o); reflexivity.
  - intros Hv. rewrite (Hrej Hv). cbn [cell fired]. auto.
Qed.

Lemma check_assign_true_false_only_witness :
  let ponder := Option_bool false None in
  let pages := Option_bool true (Some on_large_pages) in
  (currentValue (cell (operator_assign ponder "true")) = "true"
   /\ operator_int (cell (operator_assign ponder "true")) = Ok 1)
  /\ (currentValue (cell (operator_assign pages "false")) = "false"
      /\ operator_int (cell (operator_assign pages "false")) = Ok 0
      /\ fired (operator_assign pages "false")
         = [(on_large_pages, cell (operator_assign pages "false"))])
  /\ (currentValue (cell (operator_assign ponder "True")) = "false"
      /\ fired (operator_assign ponder "True") = [])
  /\ (currentValue (cell (operator_assign pages "1")) = "true"
      /\ fired (operator_assign pages "1") = [])
  /\ (currentValue (cell (operator_assign pages EmptyString)) = "true"
      /\ fired (operator_assign pages EmptyString) = []).
Proof.
  cbv zeta.
  pose proof (check_assign_true_false_only (Option_bool false None)) as Hp.
  pose proof (check_assign_true_false_only
                (Option_bool true (Some on_large_pages))) as Hl.
  split; [|split; [|split; [|split]]].
  - destruct (Hp "true" eq_refl) as (_ & Hacc & _).
    destruct Hacc as (Hv & Hi & _); [left; reflexivity|]. split; assumption.
  - destruct (Hl "false" eq_refl) as (_ & Hacc & _).
    destruct Hacc as (Hv & Hi & _ & Hf & _); [right; reflexivity|].
    split; [exact Hv|]. split; [exact Hi|exact Hf].
  - destruct (Hp "True" eq_refl) as (_ & _ & Hrej).
    destruct Hrej as (_ & Hv & Hf); [split; discriminate|].
    split; [exact Hv|exact Hf].
  - destruct (Hl "1" eq_refl) as (_ & _ & Hrej).
    destruct Hrej as (_ & Hv & Hf); [split; discriminate|].
    split; [exact Hv|exact Hf].
  - destruct (Hl EmptyString eq_refl) as (_ & _ & Hrej).
    destruct Hrej as (_ & Hv & Hf); [split; discriminate|].
    split; [exact Hv|exact Hf].
Defined.

(** C7.  A button cell with a change action accepts every text, the empty
    one included: the call returns, the cell is as before and the action has
    run exactly once. *)
Theorem button_assign_always_fires (o : Option) (f : OnChange) (v : string) :
  type o = "button" ->
  on_change o = Some f ->
  operator_assign o v = mkOutcome (Ok tt) o [(f, o)].
Proof.
  intros Hb Hf. unfold operator_assign.
  rewrite (type_nonempty o _ Hb eq_refl), (rejects_button o v Hb), Hb.
  cbn. unfold notify. rewrite Hf. reflexivity.
Qed.

(** Scenario B of the specification: Clear Hash assigned the empty text. *)
Lemma button_assign_always_fires_witness :
  let clear := Option_button (Some on_clear_hash) in
  operator_assign clear EmptyString
    = mkOutcome (Ok tt) clear [(on_clear_hash, clear)]
  /\ List.length (fired (operator_assign clear "go")) = 1%nat.
Proof.
  cbv zeta. split.
  - exact (button_assign_always_fires (Option_button (Some on_clear_hash))
             on_clear_hash EmptyString eq_refl eq_refl).
  - rewrite (button_assign_always_fires (Option_button (Some on_clear_hash))
               on_clear_hash "go" eq_refl eq_refl).
    reflexivity.
Defined.

(** ** The source's condition against the specification's policy *)

Lemma kind_of_type (o : Option) (k : Kind) :
  kind_of o = Some k -> type o = kindName k.
Proof.
  unfold kind_of.
  destruct (String.eqb_spec (type o) "string") as [E|_];
    [intros [= <-]; exact E|].
  destruct (String.eqb_spec (type o) "check") as [E|_];
    [intros [= <-]; exact E|].
  destruct (String.eqb_spec (type o) "button") as [E|_];
    [intros [= <-]; exact E|].
  destruct (String.eqb_spec (type o) "spin") as [E|_];
    [intros [= <-]; exact E|discriminate].
Qed.

Lemma kind_of_nonempty (o : Option) (k : Kind) :
  kind_of o = Some k -> empty (type o) = false.
Proof.
  intros H. rewrite (kind_of_type o k H). destruct k; reflexivity.
Qed.

(** Where [rejects] gives an answer it is the specification's; it gives
    none only for a spin cell, on a text [stoi] throws on. *)
Lemma rejects_spec (o : Option) (k : Kind) (v : string) :
  kind_of o = Some k ->
  match rejects o v with
  | Ok b => b = spec_rejected k o v
  | Throw e => k = Spin /\ empty v = false /\ stoi v = Throw e
  | AssertFail => False
  end.
Proof.
  intros H. pose proof (kind_of_type o k H) as Ht.
  destruct k; cbn [kindName] in Ht.
  - rewrite (rejects_check o v Ht). reflexivity.
  - rewrite (rejects_spin o v Ht). unfold spec_rejected.
    destruct v as [|c r] eqn:Hv; [reflexivity|]. cbn [empty].
    destruct (stoi (String c r)) as [z|e|] eqn:Hz; cbn [bind].
    + rewrite negb_andb, Z.gtb_ltb, <- !Z.ltb_antisym. reflexivity.
    + auto.
    + exact (stoi_no_assert _ Hz).
  - rewrite (rejects_button o v Ht). reflexivity.
  - rewrite (rejects_string o v Ht). reflexivity.
Qed.

(** C3, as the code has it.  For a cell with a change action, the action is
    run by [operator=] exactly when the assignment is accepted, once and on
    the cell in its new state; a rejected assignment runs nothing and leaves
    the cell.  Whether the text differs from the current value is not
    looked at: assigning the current value again, when it is acceptable,
    runs the action as well. *)
Theorem callback_on_every_accepted_assign (o : Option) (k : Kind)
        (f : OnChange) (v : string) :
  kind_of o = Some k ->
  on_change o = Some f ->
  (spec_rejected k o v = false ->
     completion (operator_assign o v) = Ok tt
     /\ cell (operator_assign o v)
        = match k with Button => o | _ => set_currentValue o v end
     /\ fired (operator_assign o v) = [(f, cell (operator_assign o v))])
  /\ (spec_rejected k o v = true ->
     cell (operator_assign o v) = o /\ fired (operator_assign o v) = [])
  /\ (spec_rejected k o (currentValue o) = false ->
     cell (operator_assign o (currentValue o)) = o
     /\ fired (operator_assign o (currentValue o)) = [(f, o)]).
Proof.
  intros Hk Hf.
  assert (Hacc : forall w, spec_rejected k o w = false ->
            operator_assign o w
            = let o' := match k with Button => o | _ => set_currentValue o w end
              in mkOutcome (Ok tt) o' [(f, o')]).
  { intros w Hr. pose proof (rejects_spec o k w Hk) as R.
    unfold operator_assign. rewrite (kind_of_nonempty o k Hk).
    destruct (rejects o w) as [b|e|].
    - subst b. rewrite Hr, (kind_of_type o k Hk).
      destruct k; cbn; unfold notify; cbn; rewrite Hf; reflexivity.
    - destruct R as (-> & _ & He). unfold spec_rejected in Hr.
      rewrite He in Hr. discriminate.
    - contradiction. }
  split; [|split].
  - intros Hr. rewrite (Hacc v Hr). cbn. auto.
  - intros Hr. pose proof (rejects_spec o k v Hk) as R.
    unfold operator_assign. rewrite (kind_of_nonempty o k Hk).
    destruct (rejects o v) as [b|e|].
    + subst b. rewrite Hr. auto.
    + auto.
    + contradiction.
  - intros Hr. rewrite (Hacc _ Hr). cbn.
    rewrite set_currentValue_same. destruct k; auto.
Qed.

Lemma callback_on_every_accepted_assign_witness :
  let pages := Option_bool true (Some on_large_pages) in
  (cell (operator_assign pages "false") = set_currentValue pages "false"
   /\ fired (operator_assign pages "false")
      = [(on_large_pages, set_currentValue pages "false")])
  /\ (cell (operator_assign pages "yes") = pages
      /\ fired (operator_assign pages "yes") = [])
  /\ (cell (operator_assign pages "true") = pages
      /\ fired (operator_assign pages "true") = [(on_large_pages, pages)]).
Proof.
  cbv zeta.
  destruct (callback_on_every_accepted_assign
              (Option_bool true (Some on_large_pages)) Toggle on_large_pages
              "false" eq_refl eq_refl) as (Hacc & _ & _).
  destruct (callback_on_every_accepted_assign
              (Option_bool true (Some on_large_pages)) Toggle on_large_pages
              "yes" eq_refl eq_refl) as (_ & Hrej & Hsame).
  split; [|split].
  - destruct (Hacc eq_refl) as (_ & Hc & Hf). rewrite Hf, Hc. auto.
  - exact (Hrej eq_refl).
  - exact (Hsame eq_refl).
Defined.

(** C3 as stated fails: Large Pages holds true; assigning true again is
    accepted, leaves the stored value as it was, and still runs the change
    action. *)
Lemma callback_without_change :
  let pages := Option_bool true (Some on_large_pages) in
  currentValue pages = "true"
  /\ completion (operator_assign pages "true") = Ok tt
  /\ cell (operator_assign pages "true") = pages
  /\ fired (operator_assign pages "true") = [(on_large_pages, pages)].
Proof.
  cbv zeta. split; [reflexivity|]. split; [reflexivity|].
  split; reflexivity.
Qed.

(** ** [stoi] reads a numeric prefix *)

Lemma digits_app (p t : string) (acc : Z) :
  starts_with_digit t = false -> digits acc (p ++ t) = digits acc p.
Proof.
  intros Ht. revert acc.
  induction p as [|c p IH]; intros acc; cbn [append digits].
  - destruct t as [|d t]; [reflexivity|].
    cbn [starts_with_digit] in Ht. cbn [digits]. rewrite Ht. reflexivity.
  - destruct (isdigit c); [apply IH|reflexivity].
Qed.

Lemma skip_space_app (p t : string) :
  empty (skip_space p) = false -> skip_space (p ++ t) = skip_space p ++ t.
Proof.
  induction p as [|c p IH]; cbn [append skip_space]; [discriminate|].
  destruct (isspace c); [exact IH|reflexivity].
Qed.

Lemma strtol_app (p t : string) (z : Z) :
  starts_with_digit t = false ->
  strtol p = Some z -> strtol (p ++ t) = Some z.
Proof.
  intros Ht. unfold strtol.
  destruct (skip_space p) as [|c r] eqn:Hp; [discriminate|].
  rewrite skip_space_app by (rewrite Hp; reflexivity). rewrite Hp.
  cbn [append sign].
  destruct (Ascii.eqb c "-");
    [|destruct (Ascii.eqb c "+")].
  - destruct r as [|d r]; [discriminate|]. cbn [append].
    destruct (isdigit d); [|discriminate].
    change (String d (r ++ t)) with (String d r ++ t).
    rewrite digits_app by exact Ht. trivial.
  - destruct r as [|d r]; [discriminate|]. cbn [append].
    destruct (isdigit d); [|discriminate].
    change (String d (r ++ t)) with (String d r ++ t).
    rewrite digits_app by exact Ht. trivial.
  - cbn [append]. destruct (isdigit c); [|discriminate].
    change (String c (r ++ t)) with (String c r ++ t).
    rewrite digits_app by exact Ht. trivial.
Qed.

(** What follows the numeric prefix does not count, as long as it does not
    go on with a digit. *)
Lemma stoi_app (p t : string) (z : Z) :
  starts_with_digit t = false -> stoi p = Ok z -> stoi (p ++ t) = Ok z.
Proof.
  intros Ht. unfold stoi.
  destruct (strtol p) as [y|] eqn:Hp; [|discriminate].
  rewrite (strtol_app p t y Ht Hp). trivial.
Qed.

(** ** [stoi] after [to_string] *)

Lemma digit_char_ok (d : Z) :
  0 <= d < 10 ->
  isdigit (digit_char d) = true /\ digit_value (digit_char d) = d.
Proof.
  intros H.
  assert (d = 0 \/ d = 1 \/ d = 2 \/ d = 3 \/ d = 4 \/ d = 5 \/ d = 6
          \/ d = 7 \/ d = 8 \/ d = 9) as E by lia.
  repeat (destruct E as [->|E]; [split; reflexivity|]).
  subst d. split; reflexivity.
Qed.

Lemma digits_decimal (fuel : nat) :
  forall (n : Z) (rest : string),
    0 <= n < 10 ^ Z.of_nat fuel ->
    digits 0 (decimal fuel n rest) = digits n rest.
Proof.
  induction fuel as [|fuel IH]; intros n rest Hn.
  - cbn in Hn. replace n with 0 by lia. reflexivity.
  - cbn [decimal].
    destruct (digit_char_ok (n mod 10)) as [Hd Hv];
      [apply Z.mod_pos_bound; lia|].
    assert (Hstep : digits (n / 10) (String (digit_char (n mod 10)) rest)
                    = digits n rest).
    { cbn [digits]. rewrite Hd, Hv. f_equal.
      pose proof (Z.div_mod n 10). lia. }
    destruct (Z.eqb_spec (n / 10) 0) as [E|E].
    + rewrite <- Hstep, E. reflexivity.
    + rewrite IH; [exact Hstep|].
      rewrite Nat2Z.inj_succ, Z.pow_succ_r in Hn by lia.
      split; [apply Z.div_pos; lia|].
      apply Z.div_lt_upper_bound; lia.
Qed.

Lemma decimal_starts_with_digit (fuel : nat) :
  forall (n : Z) (rest : string),
    (fuel = O -> starts_with_digit rest = true) ->
    starts_with_digit (decimal fuel n rest) = true.
Proof.
  induction fuel as [|fuel IH]; intros n rest H; [auto|].
  cbn [decimal].
  assert (Hd : isdigit (digit_char (n mod 10)) = true)
    by (apply digit_char_ok, Z.mod_pos_bound; lia).
  destruct (n / 10 =? 0); [exact Hd|].
  apply IH. intros _. exact Hd.
Qed.

Lemma digit_not_space_or_sign (c : ascii) :
  isdigit c = true ->
  isspace c = false /\ Ascii.eqb c "-" = false /\ Ascii.eqb c "+" = false.
Proof.
  unfold isdigit, isspace. intros H.
  apply andb_true_iff in H. destruct H as [H1 H2].
  apply N.leb_le in H1, H2.
  split; [|split].
  - apply orb_false_iff. split.
    + apply N.eqb_neq. lia.
    + apply andb_false_iff. right. apply N.leb_gt. lia.
  - destruct (Ascii.eqb_spec c "-") as [->|]; [cbn in H1; lia|reflexivity].
  - destruct (Ascii.eqb_spec c "+") as [->|]; [cbn in H1; lia|reflexivity].
Qed.

Lemma strtol_digits (s : string) :
  starts_with_digit s = true -> strtol s = Some (digits 0 s).
Proof.
  destruct s as [|c r]; [discriminate|]. cbn [starts_with_digit]. intros Hc.
  destruct (digit_not_space_or_sign c Hc) as (Hs & Hm & Hp).
  unfold strtol. cbn [skip_space]. rewrite Hs. cbn [sign].
  rewrite Hm, Hp, Hc. reflexivity.
Qed.

(** The text [std::to_string] writes for an [int] is read back by
    [std::stoi] as that [int]. *)
Lemma stoi_to_string (v : Z) :
  INT_MIN <= v <= INT_MAX -> stoi (to_string v) = Ok v.
Proof.
  unfold INT_MIN, INT_MAX. intros Hv.
  assert (Hstr : strtol (to_string v) = Some v).
  { unfold to_string. destruct (Z.ltb_spec v 0) as [Hneg|Hpos].
    - pose proof (decimal_starts_with_digit 11 (- v) EmptyString
                    ltac:(discriminate)) as Hd.
      pose proof (strtol_digits _ Hd) as Hs.
      unfold strtol in *. cbn [skip_space isspace] in *.
      change (isspace "-") with false. cbn [sign].
      change (Ascii.eqb "-" "-") with true. cbv iota.
      destruct (decimal 11 (- v) EmptyString) as [|c r] eqn:E;
        [discriminate|].
      cbn [starts_with_digit] in Hd. rewrite Hd. rewrite <- E.
      rewrite digits_decimal by (change (Z.of_nat 11) with 11; lia).
      cbn [digits]. f_equal. lia.
    - rewrite strtol_digits by (apply decimal_starts_with_digit; discriminate).
      rewrite digits_decimal by (change (Z.of_nat 11) with 11; lia).
      reflexivity. }
  unfold stoi. rewrite Hstr.
  replace ((INT_MIN <=? v) && (v <=? INT_MAX))%bool with true; [reflexivity|].
  symmetry. apply andb_true_iff. unfold INT_MIN, INT_MAX.
  rewrite !Z.leb_le. lia.
Qed.

(** C10.  A spin cell decides on the number [stoi] reads at the start of the
    text and keeps the text itself: when the text is [p ++ t], [stoi] reads
    [z] out of [p] and [t] does not go on with a digit, then with
    [min <= z <= max] the call returns, [currentValue] is [p ++ t] as given
    (not the decimal form of [z]) and the cell reads as [z]; with [z]
    outside the bounds the cell is left as it was. *)
Theorem spin_keeps_text_verbatim (o : Option) (p t : string) (z : Z) :
  type o = "spin" ->
  stoi p = Ok z ->
  starts_with_digit t = false ->
  (min o <= z <= max o ->
     completion (operator_assign o (p ++ t)) = Ok tt
     /\ currentValue (cell (operator_assign o (p ++ t))) = p ++ t
     /\ operator_int (cell (operator_assign o (p ++ t))) = Ok z)
  /\ (z < min o \/ max o < z ->
     cell (operator_assign o (p ++ t)) = o).
Proof.
  intros Hs Hp Ht. pose proof (stoi_app p t z Ht Hp) as Hz.
  split; intros Hb.
  - rewrite (assign_spin_in o Hs _ z Hz Hb). cbn [completion cell].
    rewrite (read_spin o Hs). auto.
  - rewrite (assign_spin_out o Hs _ z Hz Hb). reflexivity.
Qed.

Lemma spin_keeps_text_verbatim_witness :
  let skill := Option_spin 20 0 20 None in
  (currentValue (cell (operator_assign skill "007")) = "007"
   /\ operator_int (cell (operator_assign skill "007")) = Ok 7
   /\ to_string 7 = "7")
  /\ (currentValue (cell (operator_assign skill "12abc")) = "12abc"
      /\ operator_int (cell (operator_assign skill "12abc")) = Ok 12
      /\ to_string 12 = "12")
  /\ cell (operator_assign skill "21abc") = skill.
Proof.
  cbv zeta.
  destruct (spin_keeps_text_verbatim (Option_spin 20 0 20 None)
              "007" EmptyString 7 eq_refl eq_refl eq_refl) as [H7 _].
  destruct (spin_keeps_text_verbatim (Option_spin 20 0 20 None)
              "12" "abc" 12 eq_refl eq_refl eq_refl) as [H12 _].
  destruct (spin_keeps_text_verbatim (Option_spin 20 0 20 None)
              "21" "abc" 21 eq_refl eq_refl eq_refl) as [_ H21].
  split; [|split].
  - destruct H7 as (_ & Hc & Hi); [cbn; lia|]. auto.
  - destruct H12 as (_ & Hc & Hi); [cbn; lia|]. auto.
  - apply H21. right. cbn. lia.
Defined.

(** ** The invariant of spin cells *)

(** The spin constructor establishes the invariant when its caller passes
    [minv <= v <= maxv]. *)
Lemma Option_spin_invariant (v minv maxv : Z) (f : option OnChange) :
  INT_MIN <= v <= INT_MAX -> minv <= v <= maxv ->
  spin_invariant (Option_spin v minv maxv f) = true.
Proof.
  intros Hr Hb. unfold spin_invariant. cbn [Option_spin min max currentValue].
  rewrite (stoi_to_string v Hr).
  apply andb_true_iff. rewrite andb_true_iff, !Z.leb_le. lia.
Qed.

(** [operator=] preserves it, whatever the text and however the call ends. *)
Lemma assign_keeps_spin_invariant (o : Option) (v : string) :
  type o = "spin" ->
  spin_invariant o = true ->
  spin_invariant (cell (operator_assign o v)) = true.
Proof.
  intros Hs Hi.
  destruct v as [|c r] eqn:Hv; [rewrite (assign_spin_empty o Hs); exact Hi|].
  rewrite <- Hv. assert (He : empty v = false) by (subst v; reflexivity).
  destruct (stoi v) as [z|e|] eqn:Hz.
  - destruct (Z_lt_le_dec z (min o)) as [Hlo|Hlo];
      [rewrite (assign_spin_out o Hs v z Hz); [exact Hi|lia]|].
    destruct (Z_lt_le_dec (max o) z) as [Hhi|Hhi];
      [rewrite (assign_spin_out o Hs v z Hz); [exact Hi|lia]|].
    rewrite (assign_spin_in o Hs v z Hz (conj Hlo Hhi)).
    unfold spin_invariant. cbn [cell set_currentValue min max currentValue].
    rewrite Hz. apply andb_true_iff. rewrite andb_true_iff, !Z.leb_le. lia.
  - rewrite (assign_spin_throw o Hs v e He Hz). exact Hi.
  - destruct (stoi_no_assert v Hz).
Qed.

Lemma assign_keeps_type (o : Option) (v : string) :
  type (cell (operator_assign o v)) = type o.
Proof.
  unfold operator_assign. destruct (empty (type o)); [reflexivity|].
  destruct (rejects o v) as [[|]| |]; try reflexivity.
  cbn [cell]. destruct (type o != "button"); reflexivity.
Qed.

(** ** Cells of a registry built by registration *)

Lemma subscript_cells (k : string) (g : Option -> Option) (om : OptionsMap)
      (e : string * Option) :
  In e (operator_subscript k g om) ->
  In e om \/ exists this, snd e = g this.
Proof.
  induction om as [|[k' o'] rest IH]; cbn [operator_subscript].
  - intros [<-|[]]. right. eexists. reflexivity.
  - destruct (CaseInsensitiveLess k k').
    + intros [<-|H]; [right; eexists; reflexivity|left; exact H].
    + destruct (CaseInsensitiveLess k' k).
      * intros [<-|H]; [left; left; reflexivity|].
        destruct (IH H) as [H'|H']; [left; right; exact H'|right; exact H'].
      * intros [<-|H]; [right; eexists; reflexivity|left; right; exact H].
Qed.

Lemma register_cells (st : State) (entry e : string * Option) :
  In e (Options (register st entry)) ->
  In e (Options st) \/ snd e = set_idx (snd entry) (insert_order st).
Proof.
  destruct entry as [name opt]. cbn [register Options snd].
  intros H. apply subscript_cells in H.
  destruct H as [H|[this H]]; [left; exact H|right; exact H].
Qed.

Lemma registered_cells (entries : list (string * Option)) :
  forall (st : State) (e : string * Option),
    In e (Options (fold_left register entries st)) ->
    In e (Options st)
    \/ exists opt i, In opt (map snd entries) /\ snd e = set_idx opt i.
Proof.
  induction entries as [|entry entries IH]; intros st e; cbn [fold_left].
  - auto.
  - intros H. destruct (IH _ _ H) as [H'|(opt & i & Hin & He)].
    + destruct (register_cells _ _ _ H') as [H''|H'']; [left; exact H''|].
      right. exists (snd entry), (insert_order st).
      split; [left; reflexivity|exact H''].
    + right. exists opt, i. split; [right; exact Hin|exact He].
Qed.

Lemma spin_invariant_set_idx (o : Option) (i : N) :
  spin_invariant (set_idx o i) = spin_invariant o.
Proof. reflexivity. Qed.

Lemma int_of_unsigned_small (n : N) :
  (n <= 512)%N -> int_of_unsigned n = Z.of_N n.
Proof.
  intros H. unfold int_of_unsigned.
  rewrite Z.mod_small by lia.
  destruct (Z.ltb_spec (Z.of_N n) (2 ^ 31)); lia.
Qed.

(** The cells [init] constructs satisfy the spin invariant as long as the
    number handed to Threads is at most 512. *)
Lemma catalog_spin_invariant (n : N) (Is64Bit : bool) :
  (1 <= n <= 512)%N ->
  Forall (fun opt => type opt = "spin" -> spin_invariant opt = true)
         (map snd (catalog n (if Is64Bit then 1024 * 1024 else 2048))).
Proof.
  intros Hn.
  assert (Hthreads : forall f,
             spin_invariant (Option_spin (int_of_unsigned n) 1 512 f) = true).
  { intros f. rewrite int_of_unsigned_small by lia.
    apply Option_spin_invariant; unfold INT_MIN, INT_MAX; lia. }
  cbn [catalog map snd].
  repeat (apply Forall_cons;
          [intros H; first [discriminate H
                           |apply Hthreads
                           |destruct Is64Bit; vm_compute; reflexivity]|]).
  apply Forall_nil.
Qed.

Lemma init_spin_invariant (hw : N) (Is64Bit : bool) :
  (hw <= 512)%N ->
  forall name o,
    In (name, o) (Options (init hw Is64Bit process_start)) ->
    type o = "spin" -> spin_invariant o = true.
Proof.
  intros Hhw name o Hin Hs. unfold init in Hin.
  apply registered_cells in Hin. destruct Hin as [[]|(opt & i & Hopt & He)].
  cbn [snd] in He. subst o. rewrite spin_invariant_set_idx.
  refine (proj1 (Forall_forall _ _)
            (catalog_spin_invariant _ Is64Bit _) opt Hopt Hs).
  destruct (N.eqb_spec hw 0); lia.
Qed.

(** C4 fails on a machine with more than 512 hardware threads.  With
    [hardware_concurrency() = 1024] the catalogue holds Threads as a spin
    cell with bounds [1, 512] whose current value reads 1024: the invariant
    is broken from the start. *)
Theorem threads_default_above_max :
  let om := Options (init 1024 true process_start) in
  exists o,
    find "Threads" om = Some o
    /\ type o = "spin"
    /\ (min o, max o) = (1, 512)
    /\ currentValue o = "1024"
    /\ operator_int o = Ok 1024
    /\ spin_invariant o = false.
Proof.
  cbv zeta. eexists. split; [vm_compute; reflexivity|].
  repeat split.
Qed.

(** ** Lookup ignores case *)

Lemma less_lowercase_l (n1 n2 : string) :
  lowercase n1 = lowercase n2 ->
  forall k, CaseInsensitiveLess n1 k = CaseInsensitiveLess n2 k.
Proof.
  revert n2. induction n1 as [|c1 r1 IH]; intros [|c2 r2] H k;
    try discriminate; [reflexivity|].
  cbn [lowercase] in H. injection H as Hc Hr.
  destruct k as [|d r]; [reflexivity|].
  cbn [CaseInsensitiveLess]. unfold char_less. rewrite Hc.
  rewrite (IH r2 Hr r). reflexivity.
Qed.

Lemma less_lowercase_r (n1 n2 : string) :
  lowercase n1 = lowercase n2 ->
  forall k, CaseInsensitiveLess k n1 = CaseInsensitiveLess k n2.
Proof.
  revert n2. induction n1 as [|c1 r1 IH]; intros [|c2 r2] H k;
    try discriminate; [reflexivity|].
  cbn [lowercase] in H. injection H as Hc Hr.
  destruct k as [|d r]; [reflexivity|].
  cbn [CaseInsensitiveLess]. unfold char_less. rewrite Hc.
  rewrite (IH r2 Hr r). reflexivity.
Qed.

(** C8.  Two names that are equal after lower-casing each character are
    looked up to the same cell, in every registry. *)
Theorem lookup_ignores_case (om : OptionsMap) (n1 n2 : string) :
  lowercase n1 = lowercase n2 -> find n1 om = find n2 om.
Proof.
  intros H. induction om as [|[k o] rest IH]; [reflexivity|].
  cbn [find].
  rewrite (less_lowercase_l n1 n2 H k), (less_lowercase_r n1 n2 H k), IH.
  reflexivity.
Qed.

Lemma lookup_ignores_case_witness :
  let om := Options (init 8 true process_start) in
  find "hash" om = find "Hash" om
  /\ find "HASH" om = find "Hash" om
  /\ option_map currentValue (find "Hash" om) = Some "16".
Proof.
  cbv zeta. split; [|split].
  - exact (lookup_ignores_case _ "hash" "Hash" eq_refl).
  - exact (lookup_ignores_case _ "HASH" "Hash" eq_refl).
  - vm_compute. reflexivity.
Defined.

(** ** [CaseInsensitiveLess] is a strict weak order *)

Lemma less_irrefl (s : string) : CaseInsensitiveLess s s = false.
Proof.
  induction s as [|c s IH]; [reflexivity|].
  cbn [CaseInsensitiveLess]. unfold char_less. rewrite Z.ltb_irrefl.
  exact IH.
Qed.

Lemma less_trans (a : string) :
  forall b c,
    CaseInsensitiveLess a b = true -> CaseInsensitiveLess b c = true ->
    CaseInsensitiveLess a c = true.
Proof.
  induction a as [|x a IH]; intros [|y b] [|z c]; cbn [CaseInsensitiveLess];
    try discriminate; try reflexivity.
  unfold char_less.
  destruct (Z.ltb_spec (tolower (int_of_char x)) (tolower (int_of_char y)));
    destruct (Z.ltb_spec (tolower (int_of_char y)) (tolower (int_of_char x)));
    destruct (Z.ltb_spec (tolower (int_of_char y)) (tolower (int_of_char z)));
    destruct (Z.ltb_spec (tolower (int_of_char z)) (tolower (int_of_char y)));
    destruct (Z.ltb_spec (tolower (int_of_char x)) (tolower (int_of_char z)));
    destruct (Z.ltb_spec (tolower (int_of_char z)) (tolower (int_of_char x)));
    try discriminate; try reflexivity; try lia.
  apply IH.
Qed.

(** Keys are the same for the map exactly when they are equal after
    lower-casing. *)
Lemma equivalent_lowercase (a b : string) :
  equivalent a b = true <-> lowercase a = lowercase b.
Proof.
  unfold equivalent. split.
  - revert b. induction a as [|x a IH]; intros [|y b];
      cbn [CaseInsensitiveLess lowercase]; try discriminate; [reflexivity|].
    unfold char_less.
    destruct (Z.ltb_spec (tolower (int_of_char x)) (tolower (int_of_char y)));
      [discriminate|].
    destruct (Z.ltb_spec (tolower (int_of_char y)) (tolower (int_of_char x)));
      [discriminate|].
    intros Hrest. f_equal; [lia|apply IH, Hrest].
  - intros Heq.
    rewrite (less_lowercase_l a b Heq b), (less_lowercase_r a b Heq b).
    rewrite less_irrefl. reflexivity.
Qed.

Lemma equivalent_sym (a b : string) : equivalent a b = equivalent b a.
Proof. unfold equivalent. apply andb_comm. Qed.

(** ** Reading the map after a write through [operator[]] *)

Lemma find_subscript_same (k : string) (g : Option -> Option)
      (om : OptionsMap) :
  find k (operator_subscript k g om) = Some (g (slot k om)).
Proof.
  unfold slot. induction om as [|[k' o] rest IH];
    cbn [operator_subscript find].
  - rewrite less_irrefl. reflexivity.
  - destruct (CaseInsensitiveLess k k') eqn:E1.
    + cbn [find]. rewrite less_irrefl. reflexivity.
    + destruct (CaseInsensitiveLess k' k) eqn:E2; cbn [find];
        rewrite E1, E2; [exact IH|reflexivity].
Qed.

Lemma find_subscript_other (k k2 : string) (g : Option -> Option)
      (om : OptionsMap) :
  equivalent k k2 = false ->
  find k2 (operator_subscript k g om) = find k2 om.
Proof.
  intros Hne. induction om as [|[k' o] rest IH];
    cbn [operator_subscript find].
  - destruct (CaseInsensitiveLess k2 k) eqn:E1; [reflexivity|].
    destruct (CaseInsensitiveLess k k2) eqn:E2; [reflexivity|].
    unfold equivalent in Hne. rewrite E1, E2 in Hne. discriminate.
  - destruct (CaseInsensitiveLess k k') eqn:E1.
    + cbn [find].
      destruct (CaseInsensitiveLess k2 k) eqn:E2.
      * rewrite (less_trans _ _ _ E2 E1). reflexivity.
      * destruct (CaseInsensitiveLess k k2) eqn:E3; [reflexivity|].
        unfold equivalent in Hne. rewrite E2, E3 in Hne. discriminate.
    + destruct (CaseInsensitiveLess k' k) eqn:E2; cbn [find].
      * rewrite IH. reflexivity.
      * destruct (CaseInsensitiveLess k2 k') eqn:E3; [reflexivity|].
        destruct (CaseInsensitiveLess k' k2) eqn:E4; [reflexivity|].
        assert (H1 : lowercase k = lowercase k')
          by (apply equivalent_lowercase; unfold equivalent;
              rewrite E1, E2; reflexivity).
        assert (H2 : lowercase k' = lowercase k2)
          by (apply equivalent_lowercase; unfold equivalent;
              rewrite E3, E4; reflexivity).
        assert (H3 : equivalent k k2 = true)
          by (apply equivalent_lowercase; congruence).
        congruence.
Qed.

(** ** The map stays ordered *)

Lemma subscript_keys (k : string) (g : Option -> Option) (om : OptionsMap)
      (e : string * Option) :
  In e (operator_subscript k g om) ->
  fst e = k \/ In (fst e) (map fst om).
Proof.
  induction om as [|[k' o] rest IH]; cbn [operator_subscript].
  - intros [<-|[]]. left. reflexivity.
  - destruct (CaseInsensitiveLess k k').
    + intros [<-|H]; [left; reflexivity|right; apply in_map, H].
    + destruct (CaseInsensitiveLess k' k).
      * intros [<-|H]; [right; left; reflexivity|].
        destruct (IH H) as [H'|H']; [left; exact H'|right; right; exact H'].
      * intros [<-|H]; [right; left; reflexivity|].
        right. right. apply in_map, H.
Qed.

Lemma subscript_ordered (k : string) (g : Option -> Option)
      (om : OptionsMap) :
  ordered om -> ordered (operator_subscript k g om).
Proof.
  induction 1 as [|k' o rest Hbelow Hrest IH]; cbn [operator_subscript].
  - constructor; constructor.
  - destruct (CaseInsensitiveLess k k') eqn:E1.
    + constructor; [|constructor; assumption].
      constructor; [exact E1|].
      apply Forall_forall. intros e He.
      apply (less_trans _ _ _ E1).
      exact (proj1 (Forall_forall _ _) Hbelow e He).
    + destruct (CaseInsensitiveLess k' k) eqn:E2.
      * constructor; [|exact IH].
        apply Forall_forall. intros e He.
        destruct (subscript_keys _ _ _ _ He) as [->|Hin]; [exact E2|].
        apply in_map_iff in Hin. destruct Hin as (e' & <- & He').
        exact (proj1 (Forall_forall _ _) Hbelow e' He').
      * constructor; assumption.
Qed.

Lemma registered_ordered (entries : list (string * Option)) :
  forall st, ordered (Options st) ->
             ordered (Options (fold_left register entries st)).
Proof.
  induction entries as [|[name opt] entries IH]; intros st H; [exact H|].
  cbn [fold_left]. apply IH. cbn [register Options].
  apply subscript_ordered, H.
Qed.

(** In an ordered map [find] reaches every entry, through any key that is
    the same key as the entry's. *)
Lemma find_complete (om : OptionsMap) :
  ordered om ->
  forall k k' o,
    In (k', o) om -> equivalent k k' = true -> find k om = Some o.
Proof.
  induction 1 as [|k0 o0 rest Hbelow Hrest IH]; intros k k' o Hin Heq;
    [destruct Hin|].
  apply equivalent_lowercase in Heq. cbn [find].
  destruct Hin as [[= -> ->]|Hin].
  - rewrite (less_lowercase_l k k' Heq k'), (less_lowercase_r k k' Heq k').
    rewrite less_irrefl. reflexivity.
  - pose proof (proj1 (Forall_forall _ _) Hbelow _ Hin) as Hlt.
    cbn [fst] in Hlt.
    rewrite (less_lowercase_l k k' Heq k0), (less_lowercase_r k k' Heq k0).
    rewrite Hlt.
    destruct (CaseInsensitiveLess k' k0) eqn:E.
    + pose proof (less_trans _ _ _ E Hlt) as F.
      rewrite less_irrefl in F. discriminate.
    + apply (IH k k' o Hin). apply equivalent_lowercase, Heq.
Qed.

(** ** Registration in general *)

Lemma register_counter (st : State) (entry : string * Option) :
  insert_order (register st entry)
  = ((insert_order st + 1) mod (SIZE_MAX + 1))%N.
Proof. destruct entry. reflexivity. Qed.

Lemma find_register_same (st : State) (name : string) (opt : Option) :
  find name (Options (register st (name, opt)))
  = Some (set_idx opt (insert_order st)).
Proof. cbn [register Options]. rewrite find_subscript_same. reflexivity. Qed.

Lemma find_register_other (st : State) (name k : string) (opt : Option) :
  equivalent name k = false ->
  find k (Options (register st (name, opt))) = find k (Options st).
Proof. intros H. cbn [register Options]. apply find_subscript_other, H. Qed.

Lemma find_registered_other (entries : list (string * Option)) (k : string) :
  forallb (fun k' => negb (equivalent k k')) (map fst entries) = true ->
  forall st,
    find k (Options (fold_left register entries st)) = find k (Options st).
Proof.
  induction entries as [|[name opt] entries IH]; intros H st; [reflexivity|].
  cbn [map fst forallb] in H. apply andb_true_iff in H. destruct H as [H1 H2].
  cbn [fold_left]. rewrite (IH H2). apply find_register_other.
  rewrite equivalent_sym. apply negb_true_iff, H1.
Qed.

(** Statements [o[name] << opt] with names that are distinct keys, run one
    after the other: the [i]-th name is then found with the [i]-th cell,
    stamped with the counter's value at that statement. *)
Lemma find_registered (entries : list (string * Option)) :
  distinct_names (map fst entries) = true ->
  forall st,
    (insert_order st + N.of_nat (List.length entries) <= SIZE_MAX + 1)%N ->
    forall i name opt,
      nth_error entries i = Some (name, opt) ->
      find name (Options (fold_left register entries st))
      = Some (set_idx opt (insert_order st + N.of_nat i)).
Proof.
  induction entries as [|[k o] entries IH]; intros Hd st Hc i name opt Hi.
  - destruct i; discriminate.
  - cbn [map fst distinct_names] in Hd. apply andb_true_iff in Hd.
    destruct Hd as [Hk Hd]. cbn [fold_left].
    cbn [List.length] in Hc. rewrite Nat2N.inj_succ in Hc.
    destruct i as [|i]; cbn [nth_error] in Hi.
    + injection Hi as -> ->.
      rewrite (find_registered_other entries name Hk), find_register_same.
      rewrite N.add_0_r. reflexivity.
    + assert (Hlen : (i < List.length entries)%nat)
        by (apply nth_error_Some; rewrite Hi; discriminate).
      assert (Hnext : insert_order (register st (k, o))
                      = (insert_order st + 1)%N)
        by (rewrite register_counter; apply N.mod_small; lia).
      rewrite (IH Hd (register st (k, o))) with (i := i) (opt := opt);
        [|rewrite Hnext; lia|exact Hi].
      rewrite Hnext, Nat2N.inj_succ. do 2 f_equal. lia.
Qed.

(** ** Insertion indices of the catalogue *)

Lemma all_among_incl (l1 l2 : list N) :
  all_among l1 l2 = true -> incl l1 l2.
Proof.
  unfold all_among. intros H x Hx.
  rewrite forallb_forall in H. specialize (H x Hx).
  apply existsb_exists in H. destruct H as (y & Hy & E).
  apply N.eqb_eq in E. subst y. exact Hy.
Qed.

Lemma indices_length (n : nat) : List.length (indices n) = n.
Proof. unfold indices. rewrite length_map, length_seq. reflexivity. Qed.

Lemma indices_NoDup (n : nat) : NoDup (indices n).
Proof.
  unfold indices. apply Injective_map_NoDup; [|apply seq_NoDup].
  intros x y. apply Nat2N.inj.
Qed.

(** Indices that cover [0 .. n-1] in a registry of [n] entries are exactly
    these, each once. *)
Lemma covering_indices_permutation (om : OptionsMap) :
  incl (indices (List.length om)) (map entry_idx om) ->
  Permutation (map entry_idx om) (indices (List.length om)).
Proof.
  intros H. symmetry. apply NoDup_Permutation_bis.
  - apply indices_NoDup.
  - rewrite length_map, indices_length. apply Nat.le_refl.
  - exact H.
Qed.

Lemma init_length (hw : N) (Is64Bit : bool) :
  List.length (Options (init hw Is64Bit process_start)) = 41%nat.
Proof. vm_compute. reflexivity. Qed.

Lemma init_indices_cover (hw : N) (Is64Bit : bool) :
  all_among (indices 41)
            (map entry_idx (Options (init hw Is64Bit process_start))) = true.
Proof. vm_compute. reflexivity. Qed.

Lemma catalog_names_of (n : N) (MaxHashMB : Z) :
  map fst (catalog n MaxHashMB) = catalog_names.
Proof. reflexivity. Qed.

Lemma catalog_names_distinct : distinct_names catalog_names = true.
Proof. vm_compute. reflexivity. Qed.

Lemma init_indices_permutation (hw : N) (Is64Bit : bool) :
  let om := Options (init hw Is64Bit process_start) in
  Permutation (map entry_idx om) (indices (List.length om)).
Proof.
  cbv zeta. apply covering_indices_permutation. rewrite init_length.
  apply all_among_incl, init_indices_cover.
Qed.

(** C5.  After [init] has run on an empty registry, with the counter of
    [operator<<] at its initial value 0, the registry has one cell per
    statement of [init], the insertion indices of its cells are exactly
    [0 .. N-1], and the cell of the [i]-th name of the catalogue has index
    [i]: Tactical Mode has 0 and SyzygyProbeLimit has [N-1]. *)
Theorem init_indices_follow_catalog (hw : N) (Is64Bit : bool) :
  let om := Options (init hw Is64Bit process_start) in
  let size := List.length om in
  size = List.length catalog_names
  /\ Permutation (map entry_idx om) (indices size)
  /\ (forall i name,
        nth_error catalog_names i = Some name ->
        option_map idx (find name om) = Some (N.of_nat i))
  /\ option_map idx (find "Tactical Mode" om) = Some 0%N
  /\ option_map idx (find "SyzygyProbeLimit" om)
     = Some (N.of_nat (size - 1)).
Proof.
  cbv zeta. rewrite init_length.
  split; [reflexivity|].
  split; [rewrite <- (init_length hw Is64Bit);
          apply init_indices_permutation|].
  split; [|split; vm_compute; reflexivity].
  intros i name Hi. unfold init.
  set (n := if N.eqb hw 0 then 1%N else hw).
  set (MaxHashMB := if Is64Bit then 1024 * 1024 else 2048).
  rewrite <- (catalog_names_of n MaxHashMB), nth_error_map in Hi.
  destruct (nth_error (catalog n MaxHashMB) i) as [[name' opt]|] eqn:E;
    [|discriminate].
  cbn [option_map fst] in Hi. injection Hi as ->.
  rewrite (find_registered (catalog n MaxHashMB)) with (i := i) (opt := opt).
  - reflexivity.
  - rewrite catalog_names_of. apply catalog_names_distinct.
  - vm_compute. discriminate.
  - exact E.
Qed.

(** The counter is a static of [operator<<] and is never reset: were [init]
    run a second time in the same process, on another empty map, the
    indices would go on from 41. *)
Lemma init_second_run (hw : N) (Is64Bit : bool) :
  let st := init hw Is64Bit process_start in
  insert_order st = 41%N
  /\ option_map idx
       (find "Tactical Mode"
             (Options (init hw Is64Bit (mkState (insert_order st) []))))
     = Some 41%N.
Proof. cbv zeta. split; vm_compute; reflexivity. Qed.

(** ** The printer *)

Lemma append_empty_r (s : string) : s ++ EmptyString = s.
Proof. induction s as [|c s IH]; cbn; [|rewrite IH]; reflexivity. Qed.

Lemma append_assoc' (a b c : string) : (a ++ b) ++ c = a ++ b ++ c.
Proof. induction a as [|x a IH]; cbn; [|rewrite IH]; reflexivity. Qed.

Lemma join_app (l1 l2 : list string) : join (l1 ++ l2) = join l1 ++ join l2.
Proof.
  induction l1 as [|s l1 IH]; cbn; [reflexivity|].
  unfold join in IH. rewrite IH, append_assoc'. reflexivity.
Qed.

(** The source's line is the specification's line for each of the four
    kinds. *)
Lemma print_option_declaration (name : string) (o : Option) (k : Kind) :
  kind_of o = Some k -> print_option name o = declaration name k o.
Proof.
  intros H. pose proof (kind_of_type o k H) as Ht.
  unfold print_option, declaration. rewrite Ht.
  destruct k; cbn [kindName String.eqb Ascii.eqb Bool.eqb negb];
    rewrite ?append_empty_r, ?append_assoc'; reflexivity.
Qed.

Lemma first_with_idx_In (i : N) (om : OptionsMap) (e : string * Option) :
  first_with_idx i om = Some e -> In e om /\ entry_idx e = i.
Proof.
  induction om as [|[name o] rest IH]; cbn [first_with_idx]; [discriminate|].
  destruct (N.eqb_spec (idx o) i) as [E|E].
  - intros [= <-]. split; [left; reflexivity|exact E].
  - intros H. destruct (IH H) as [Hin Hi]. split; [right; exact Hin|exact Hi].
Qed.

Lemma first_with_idx_found (i : N) (om : OptionsMap) :
  In i (map entry_idx om) -> exists e, first_with_idx i om = Some e.
Proof.
  induction om as [|[name o] rest IH]; cbn [map In first_with_idx]; [tauto|].
  unfold entry_idx at 1. cbn [snd].
  destruct (N.eqb_spec (idx o) i) as [E|E].
  - intros _. eexists. reflexivity.
  - intros [H|H]; [contradiction|exact (IH H)].
Qed.

(** The two loops write the lines of the visited entries, one after the
    other. *)
Lemma print_from_visits (om : OptionsMap) (count : nat) :
  forall start : nat,
    print_from count (N.of_nat start) om
    = join (map print_entry
                (flat_map (found om) (map N.of_nat (seq start count)))).
Proof.
  induction count as [|count IH]; intros start; [reflexivity|].
  cbn [print_from seq map flat_map].
  rewrite <- Nat2N.inj_succ, IH, map_app, join_app. f_equal.
  unfold found. destruct (first_with_idx (N.of_nat start) om) as [[name o]|].
  - cbn. rewrite append_empty_r. reflexivity.
  - reflexivity.
Qed.

Lemma visited_indices (om : OptionsMap) (l : list N) :
  incl l (map entry_idx om) ->
  map entry_idx (flat_map (found om) l) = l.
Proof.
  induction l as [|i l IH]; intros H; [reflexivity|].
  cbn [flat_map].
  rewrite map_app, IH by (intros x Hx; apply H; right; exact Hx).
  destruct (first_with_idx_found i om (H i (or_introl eq_refl))) as [e He].
  unfold found. rewrite He. cbn [map app].
  rewrite (proj2 (first_with_idx_In i om e He)). reflexivity.
Qed.

Lemma visited_incl (om : OptionsMap) (l : list N) :
  incl (flat_map (found om) l) om.
Proof.
  intros e He. apply in_flat_map in He. destruct He as (i & _ & He).
  unfold found in He.
  destruct (first_with_idx i om) as [e'|] eqn:E; [|destruct He].
  destruct He as [<-|[]]. exact (proj1 (first_with_idx_In i om e' E)).
Qed.

(** C9.  For a registry whose insertion indices are exactly [0 .. N-1] and
    whose cells have one of the four kinds, the printer writes exactly one
    line per setting, in ascending order of insertion index, and each line
    is the declaration of the specification: name and kind name, then the
    default value unless the kind is Button, then the bounds when the kind
    is Spin. *)
Theorem print_one_line_per_setting (om : OptionsMap) :
  Permutation (map entry_idx om) (indices (List.length om)) ->
  Forall (fun e => kind_of (snd e) <> None) om ->
  exists lines : OptionsMap,
    Permutation lines om
    /\ map entry_idx lines = indices (List.length om)
    /\ operator_print om = join (map declaration_of lines).
Proof.
  intros Hperm Hkind.
  assert (Hcover : incl (indices (List.length om)) (map entry_idx om))
    by (intros i Hi; apply (Permutation_in _ (Permutation_sym Hperm) Hi)).
  pose proof (visited_indices om _ Hcover) as Hidx.
  fold (visited om) in Hidx.
  exists (visited om). split; [|split].
  - apply NoDup_Permutation_bis.
    + apply (NoDup_map_inv entry_idx). rewrite Hidx. apply indices_NoDup.
    + rewrite <- (length_map entry_idx (visited om)), Hidx, indices_length.
      apply Nat.le_refl.
    + apply visited_incl.
  - exact Hidx.
  - unfold operator_print. rewrite (print_from_visits om _ 0).
    fold (indices (List.length om)). fold (visited om). f_equal.
    apply map_ext_in. intros [name o] He.
    apply visited_incl in He.
    pose proof (proj1 (Forall_forall _ _) Hkind _ He) as Hk. cbn [snd] in Hk.
    unfold print_entry, declaration_of. cbn [fst snd].
    destruct (kind_of o) as [k|] eqn:E; [|contradiction].
    apply print_option_declaration. exact E.
Qed.

Lemma kind_of_set_idx (o : Option) (i : N) :
  kind_of (set_idx o i) = kind_of o.
Proof. reflexivity. Qed.

(** Every cell [init] registers has one of the four kinds. *)
Lemma init_kinds (hw : N) (Is64Bit : bool) :
  Forall (fun e => kind_of (snd e) <> None)
         (Options (init hw Is64Bit process_start)).
Proof.
  apply Forall_forall. intros e He. unfold init in He.
  apply registered_cells in He. destruct He as [[]|(opt & i & Hopt & He)].
  rewrite He, kind_of_set_idx. clear He. revert opt Hopt.
  apply Forall_forall.
  cbn [catalog map snd].
  repeat (apply Forall_cons; [discriminate|]). apply Forall_nil.
Qed.

Lemma print_one_line_per_setting_witness :
  let om := Options (init 8 true process_start) in
  exists lines : OptionsMap,
    Permutation lines om
    /\ map entry_idx lines = indices (List.length om)
    /\ operator_print om = join (map declaration_of lines).
Proof.
  exact (print_one_line_per_setting (Options (init 8 true process_start))
           (init_indices_permutation 8 true) (init_kinds 8 true)).
Defined.

(** Scenario C of the specification: Ponder, then Threads with default 4
    and bounds [1, 512]. *)
Example print_scenario_C :
  let om := Options (fold_left register
                       [ ("Ponder", Option_bool false None);
                         ("Threads", Option_spin 4 1 512 (Some on_threads)) ]
                       process_start) in
  operator_print om
  = newline ++ "option name Ponder type check default false"
    ++ newline ++ "option name Threads type spin default 4 min 1 max 512".
Proof. vm_compute. reflexivity. Qed.

(** The order of the lines is the order of registration, not the order of
    the names: the map of [init] starts at Clear Hash, its print-out at
    Tactical Mode. *)
Example print_not_in_name_order :
  let om := Options (init 8 true process_start) in
  option_map fst (hd_error om) = Some "Clear Hash"
  /\ option_map fst (hd_error (visited om)) = Some "Tactical Mode"
  /\ String.substring 0 51 (operator_print om)
     = newline ++ "option name Tactical Mode type check default false".
Proof. cbv zeta. split; [|split]; vm_compute; reflexivity. Qed.

(** Outside the invariant on the indices the printer skips settings: a name
    registered twice keeps one cell, stamped 1, and the only round of the
    outer loop looks for 0. *)
Example print_after_reregistration :
  let om := Options (fold_left register
                       [ ("Ponder", Option_bool false None);
                         ("ponder", Option_bool true None) ]
                       process_start) in
  map fst om = ["Ponder"]
  /\ map entry_idx om = [1%N]
  /\ operator_print om = EmptyString.
Proof. cbv zeta. split; [|split]; vm_compute; reflexivity. Qed.

(** ** The other invariants of the data model *)

(** The map [init] builds is ordered by name, whatever the order of its
    statements. *)
Lemma init_ordered (hw : N) (Is64Bit : bool) :
  ordered (Options (init hw Is64Bit process_start)).
Proof. unfold init. apply registered_ordered. constructor. Qed.

(** A check cell holds true or false: the constructor starts it so and
    [operator=] keeps it so. *)
Lemma Option_bool_value (b : bool) (f : option OnChange) :
  currentValue (Option_bool b f) = "true"
  \/ currentValue (Option_bool b f) = "false".
Proof. destruct b; [left|right]; reflexivity. Qed.

Lemma assign_keeps_check_value (o : Option) (v : string) :
  type o = "check" ->
  currentValue o = "true" \/ currentValue o = "false" ->
  currentValue (cell (operator_assign o v)) = "true"
  \/ currentValue (cell (operator_assign o v)) = "false".
Proof.
  intros Hc Hv. unfold operator_assign.
  rewrite (type_nonempty o _ Hc eq_refl), (rejects_check o v Hc), Hc.
  destruct (String.eqb_spec v "true") as [->|Ht];
    [left; reflexivity|].
  destruct (String.eqb_spec v "false") as [->|Hf];
    [right; reflexivity|].
  exact Hv.
Qed.

(** A string cell refuses the empty text and takes any other. *)
Lemma assign_string (o : Option) (v : string) :
  type o = "string" ->
  operator_assign o v
  = if empty v then mkOutcome (Ok tt) o []
    else mkOutcome (Ok tt) (set_currentValue o v)
                   (notify (set_currentValue o v)).
Proof.
  intros Hs. unfold operator_assign.
  rewrite (type_nonempty o _ Hs eq_refl), (rejects_string o v Hs), Hs.
  destruct (empty v); reflexivity.
Qed.

(** [operator=] never touches the type, the default, the bounds, the index
    or the change action of a cell. *)
Lemma assign_frame (o : Option) (v : string) :
  let o' := cell (operator_assign o v) in
  type o' = type o /\ defaultValue o' = defaultValue o
  /\ min o' = min o /\ max o' = max o
  /\ idx o' = idx o /\ on_change o' = on_change o.
Proof.
  cbv zeta. unfold operator_assign. destruct (empty (type o)); [tauto|].
  destruct (rejects o v) as [[|]| |]; cbn [cell]; try tauto.
  destruct (type o != "button"); cbn; tauto.
Qed.

(** * Further properties of the operators *)

(** ** What [operator=] can and cannot do *)

Lemma rejects_no_assert (o : Option) (v : string) : rejects o v <> AssertFail.
Proof.
  unfold rejects, and_then, or_else, bind.
  destruct (type o != "button"), (empty v), (type o == "check"),
    (v != "true"), (v != "false"), (type o == "spin");
    try discriminate;
    destruct (stoi v) as [z| |] eqn:E; try discriminate;
    try (exact (fun _ => stoi_no_assert v E));
    destruct (z <? min o); discriminate.
Qed.

Lemma rejects_throw (o : Option) (v : string) (e : exception) :
  rejects o v = Throw e ->
  type o = "spin" /\ empty v = false /\ stoi v = Throw e.
Proof.
  unfold rejects, and_then, or_else, bind.
  destruct (String.eqb_spec (type o) "spin") as [Hs|Hs].
  - rewrite Hs.
    change ("spin" != "button") with true.
    change ("spin" == "check") with false.
    destruct (empty v); [discriminate|].
    destruct (stoi v) as [z|e'|]; [|intros [= ->]; auto|discriminate].
    destruct (z <? min o); discriminate.
  - destruct (type o != "button"), (empty v), (type o == "check"),
      (v != "true"), (v != "false"); discriminate.
Qed.

(** X1.  Whatever the cell and the text, [operator=] leaves the cell as it
    was or changes its current value to the text and nothing else; it runs
    at most one change action, the cell's own, on the cell as it is left,
    and only when it returns; when it does not return the cell is untouched
    and nothing has run.  It fails its assertion exactly on a cell without
    a type, and it throws only out of [stoi] on a spin cell. *)
Theorem assign_outcomes (o : Option) (v : string) :
  let r := operator_assign o v in
  (cell r = o \/ (type o <> "button" /\ cell r = set_currentValue o v))
  /\ (fired r = []
      \/ exists f, on_change o = Some f /\ fired r = [(f, cell r)]
                   /\ completion r = Ok tt)
  /\ (completion r <> Ok tt -> cell r = o /\ fired r = [])
  /\ (completion r = AssertFail <-> empty (type o) = true)
  /\ (forall e, completion r = Throw e ->
                type o = "spin" /\ empty v = false /\ stoi v = Throw e).
Proof.
  cbv zeta. unfold operator_assign.
  destruct (empty (type o)) eqn:Ht; cbn [cell fired completion].
  - repeat split; auto; discriminate.
  - pose proof (rejects_no_assert o v) as Hna.
    pose proof (rejects_throw o v) as Hthrow.
    destruct (rejects o v) as [[|]|e|]; cbn [cell fired completion].
    + repeat split; auto; discriminate.
    + split; [|split; [|split; [|split]]].
      * destruct (String.eqb_spec (type o) "button") as [E|E]; cbn [negb];
          [left; reflexivity|right; split; [exact E|reflexivity]].
      * unfold notify.
        assert (Hoc : on_change (if type o != "button"
                                 then set_currentValue o v else o)
                      = on_change o)
          by (destruct (type o != "button"); reflexivity).
        rewrite Hoc. destruct (on_change o) as [f|]; [right|left; reflexivity].
        exists f. auto.
      * intros H. contradiction H. reflexivity.
      * split; discriminate.
      * discriminate.
    + split; [left; reflexivity|]. split; [left; reflexivity|].
      split; [auto|]. split; [split; discriminate|].
      intros e' [= <-]. apply Hthrow. reflexivity.
    + contradiction Hna. reflexivity.
Qed.

(** X2.  The empty text: every cell that has a type other than button
    refuses it without a word - the call returns, the cell is as before and
    no change action runs - and [stoi] is not even called for a spin cell,
    so nothing is thrown. *)
Theorem assign_empty_text (o : Option) :
  empty (type o) = false ->
  type o <> "button" ->
  operator_assign o EmptyString = mkOutcome (Ok tt) o [].
Proof.
  intros Ht Hb. unfold operator_assign. rewrite Ht.
  assert (Hr : rejects o EmptyString = Ok true).
  { unfold rejects.
    destruct (String.eqb_spec (type o) "button") as [E|_]; [contradiction|].
    reflexivity. }
  rewrite Hr. reflexivity.
Qed.

Lemma assign_empty_text_witness :
  let hash := Option_spin 16 1 1024 (Some on_hash_size) in
  let path := Option_string "<empty>" (Some on_tb_path) in
  operator_assign hash EmptyString = mkOutcome (Ok tt) hash []
  /\ operator_assign path EmptyString = mkOutcome (Ok tt) path [].
Proof.
  cbv zeta. split.
  - apply (assign_empty_text (Option_spin 16 1 1024 (Some on_hash_size)));
      [reflexivity|discriminate].
  - apply (assign_empty_text (Option_string "<empty>" (Some on_tb_path)));
      [reflexivity|discriminate].
Defined.

(** X3.  A string cell takes every text that is not empty, as it is, runs
    its change action on the new state, and reads back as that text through
    [operator std::string]. *)
Theorem string_assign_read_back (o : Option) (v : string) :
  type o = "string" ->
  empty v = false ->
  operator_assign o v
  = mkOutcome (Ok tt) (set_currentValue o v) (notify (set_currentValue o v))
  /\ operator_string (cell (operator_assign o v)) = Ok v.
Proof.
  intros Hs Hv. rewrite (assign_string o v Hs), Hv. split; [reflexivity|].
  cbn [cell]. unfold operator_string. cbn [type set_currentValue].
  rewrite Hs. reflexivity.
Qed.

Lemma string_assign_read_back_witness :
  let path := Option_string "<empty>" (Some on_tb_path) in
  operator_assign path "/tb"
  = mkOutcome (Ok tt) (set_currentValue path "/tb")
              [(on_tb_path, set_currentValue path "/tb")]
  /\ operator_string (cell (operator_assign path "/tb")) = Ok "/tb".
Proof.
  exact (string_assign_read_back (Option_string "<empty>" (Some on_tb_path))
           "/tb" eq_refl eq_refl).
Defined.

(** ** Assignments in a row *)

Lemma rejects_set_currentValue (o : Option) (w v : string) :
  rejects (set_currentValue o w) v = rejects o v.
Proof. reflexivity. Qed.

(** X4.  What an assignment does with a text never depends on the value
    the cell holds: after any earlier assignment the call ends the same
    way; when the text passes the condition of line 180 the cell is the one
    a direct assignment gives (the last accepted text wins), otherwise the
    cell stays as the earlier assignment left it.  Assigning the same text
    twice leaves the cell of the first time. *)
Theorem assign_after_assign (o : Option) (v1 v2 : string) :
  let o1 := cell (operator_assign o v1) in
  completion (operator_assign o1 v2) = completion (operator_assign o v2)
  /\ cell (operator_assign o1 v2)
     = match rejects o v2 with
       | Ok false => cell (operator_assign o v2)
       | _ => o1
       end
  /\ cell (operator_assign (cell (operator_assign o v1)) v1)
     = cell (operator_assign o v1).
Proof.
  cbv zeta.
  assert (Hgen : forall w v,
             completion (operator_assign (cell (operator_assign o w)) v)
             = completion (operator_assign o v)
             /\ cell (operator_assign (cell (operator_assign o w)) v)
                = match rejects o v with
                  | Ok false => cell (operator_assign o v)
                  | _ => cell (operator_assign o w)
                  end).
  { intros w v. destruct (empty (type o)) eqn:He.
    - assert (Hfail : forall x, operator_assign o x = mkOutcome AssertFail o [])
        by (intros x; unfold operator_assign; rewrite He; reflexivity).
      rewrite (Hfail w). cbn [cell]. rewrite (Hfail v). cbn [cell].
      destruct (rejects o v) as [[|]| |]; auto.
    - assert (Hset : forall x,
                 operator_assign (set_currentValue o x) v
                 = match rejects o v with
                   | Ok true =>
                       mkOutcome (Ok tt) (set_currentValue o x) []
                   | Ok false =>
                       let o' := if type o != "button"
                                 then set_currentValue o v
                                 else set_currentValue o x in
                       mkOutcome (Ok tt) o' (notify o')
                   | Throw e => mkOutcome (Throw e) (set_currentValue o x) []
                   | AssertFail =>
                       mkOutcome AssertFail (set_currentValue o x) []
                   end).
      { intros x. unfold operator_assign at 1.
        cbn [type set_currentValue]. rewrite He.
        rewrite rejects_set_currentValue. reflexivity. }
      assert (Ho1 : cell (operator_assign o w) = o
                    \/ (cell (operator_assign o w) = set_currentValue o w
                        /\ (type o != "button") = true)).
      { unfold operator_assign. rewrite He.
        destruct (rejects o w) as [[|]| |]; cbn [cell]; auto.
        destruct (type o != "button"); auto. }
      destruct Ho1 as [E|[E Hb]]; rewrite E.
      + unfold operator_assign. rewrite He.
        destruct (rejects o v) as [[|]| |]; auto.
      + rewrite Hset. unfold operator_assign. rewrite He, Hb.
        destruct (rejects o v) as [[|]| |]; auto. }
  destruct (Hgen v1 v2) as [Hc Hcell]. split; [exact Hc|]. split; [exact Hcell|].
  destruct (Hgen v1 v1) as [_ H1]. rewrite H1.
  destruct (rejects o v1) as [[|]| |]; reflexivity.
Qed.

(** X5.  Through any number of assignments a cell keeps its type, its
    default value, its bounds, its index and its change action: only the
    current value is ever written. *)
Theorem assign_all_frame (vs : list string) :
  forall o : Option,
    let o' := assign_all o vs in
    type o' = type o /\ defaultValue o' = defaultValue o
    /\ min o' = min o /\ max o' = max o
    /\ idx o' = idx o /\ on_change o' = on_change o.
Proof.
  induction vs as [|v vs IH]; intros o; cbv zeta.
  - cbn. tauto.
  - unfold assign_all. cbn [fold_left].
    fold (assign_all (cell (operator_assign o v)) vs).
    destruct (IH (cell (operator_assign o v))) as (H1 & H2 & H3 & H4 & H5 & H6).
    destruct (assign_frame o v) as (F1 & F2 & F3 & F4 & F5 & F6).
    rewrite H1, H2, H3, H4, H5, H6. tauto.
Qed.

(** X6.  A spin cell whose current value reads as a number within its
    bounds stays so through any number of assignments, whatever the texts
    and however the single calls end. *)
Theorem assign_all_keeps_spin_invariant (vs : list string) :
  forall o : Option,
    type o = "spin" ->
    spin_invariant o = true ->
    spin_invariant (assign_all o vs) = true.
Proof.
  induction vs as [|v vs IH]; intros o Hs Hi; [exact Hi|].
  unfold assign_all. cbn [fold_left].
  fold (assign_all (cell (operator_assign o v)) vs).
  apply IH.
  - rewrite assign_keeps_type. exact Hs.
  - apply assign_keeps_spin_invariant; assumption.
Qed.

Lemma assign_all_keeps_spin_invariant_witness :
  let hash := Option_spin 16 1 1024 (Some on_hash_size) in
  let texts := ["512"; "2000"; "abc"; EmptyString; " 7x"; "-1"] in
  spin_invariant (assign_all hash texts) = true
  /\ operator_int (assign_all hash texts) = Ok 7.
Proof.
  cbv zeta. split.
  - exact (assign_all_keeps_spin_invariant
             ["512"; "2000"; "abc"; EmptyString; " 7x"; "-1"]
             (Option_spin 16 1 1024 (Some on_hash_size)) eq_refl eq_refl).
  - vm_compute. reflexivity.
Defined.

(** X7.  A check cell made by [Option(bool)] holds true or false after any
    number of assignments, and reading it as an integer always succeeds,
    with 1 for true and 0 for false. *)
Theorem check_cell_always_boolean (b : bool) (f : option OnChange)
        (vs : list string) :
  let o := assign_all (Option_bool b f) vs in
  (currentValue o = "true" /\ operator_int o = Ok 1)
  \/ (currentValue o = "false" /\ operator_int o = Ok 0).
Proof.
  cbv zeta.
  assert (Hgen : forall o,
             type o = "check" ->
             currentValue o = "true" \/ currentValue o = "false" ->
             currentValue (assign_all o vs) = "true"
             \/ currentValue (assign_all o vs) = "false").
  { induction vs as [|v vs IH]; intros o Hc Hv; [exact Hv|].
    unfold assign_all. cbn [fold_left].
    fold (assign_all (cell (operator_assign o v)) vs).
    apply IH.
    - rewrite assign_keeps_type. exact Hc.
    - apply assign_keeps_check_value; assumption. }
  destruct (assign_all_frame vs (Option_bool b f)) as (Ht & _).
  cbn [type Option_bool] in Ht.
  unfold operator_int. rewrite Ht. cbn [String.eqb Ascii.eqb Bool.eqb orb].
  destruct (Hgen (Option_bool b f) eq_refl (Option_bool_value b f)) as [E|E];
    rewrite E; [left|right]; split; reflexivity.
Qed.

(** ** Constructors and conversions *)

(** X8.  What a constructor is given is what the matching conversion reads
    back: a spin cell made from the [int] [v] reads as [v] (the text
    [std::to_string] wrote is parsed back by [std::stoi], whether or not
    [v] lies within the bounds), a check cell made from [b] reads as 1 or
    0, and a string cell made from [s] reads as [s]. *)
Theorem constructor_read_back (v minv maxv : Z) (b : bool) (s : string)
        (f : option OnChange) :
  INT_MIN <= v <= INT_MAX ->
  operator_int (Option_spin v minv maxv f) = Ok v
  /\ operator_int (Option_bool b f) = Ok (if b then 1 else 0)
  /\ operator_string (Option_string s f) = Ok s.
Proof.
  intros Hv. split; [|split].
  - unfold operator_int. cbn [type Option_spin currentValue].
    cbn [String.eqb Ascii.eqb Bool.eqb orb]. apply stoi_to_string, Hv.
  - destruct b; reflexivity.
  - reflexivity.
Qed.

Lemma constructor_read_back_witness :
  operator_int (Option_spin (- 2147483648) 0 6 None) = Ok (- 2147483648)
  /\ operator_int (Option_bool true None) = Ok 1
  /\ operator_string (Option_string "<empty>" None) = Ok "<empty>".
Proof.
  apply (constructor_read_back (- 2147483648) 0 6 true "<empty>" None).
  unfold INT_MIN, INT_MAX. lia.
Defined.

(** ** The order of names *)

Lemma less_asym (a b : string) :
  CaseInsensitiveLess a b = true -> CaseInsensitiveLess b a = false.
Proof.
  intros H. destruct (CaseInsensitiveLess b a) eqn:E; [|reflexivity].
  pose proof (less_trans _ _ _ H E) as F. rewrite less_irrefl in F.
  discriminate.
Qed.

(** X9.  [CaseInsensitiveLess] is the strict weak order a [std::map]
    needs: no name is below itself, the order is transitive, of two names
    exactly one is below the other unless they are the same key, and two
    names are the same key exactly when they are equal after lower-casing
    each character, so being the same key is transitive too. *)
Theorem CaseInsensitiveLess_strict_weak_order :
  (forall a, CaseInsensitiveLess a a = false)
  /\ (forall a b c,
        CaseInsensitiveLess a b = true -> CaseInsensitiveLess b c = true ->
        CaseInsensitiveLess a c = true)
  /\ (forall a b,
        (CaseInsensitiveLess a b = true /\ CaseInsensitiveLess b a = false
         /\ equivalent a b = false)
        \/ (CaseInsensitiveLess a b = false /\ CaseInsensitiveLess b a = true
            /\ equivalent a b = false)
        \/ (CaseInsensitiveLess a b = false /\ CaseInsensitiveLess b a = false
            /\ equivalent a b = true))
  /\ (forall a b, equivalent a b = true <-> lowercase a = lowercase b)
  /\ (forall a b c,
        equivalent a b = true -> equivalent b c = true ->
        equivalent a c = true).
Proof.
  split; [exact less_irrefl|]. split; [exact less_trans|].
  split; [|split; [exact equivalent_lowercase|]].
  - intros a b. unfold equivalent.
    destruct (CaseInsensitiveLess a b) eqn:E1.
    + left. rewrite (less_asym a b E1). auto.
    + destruct (CaseInsensitiveLess b a) eqn:E2; auto.
  - intros a b c Hab Hbc. apply equivalent_lowercase.
    apply equivalent_lowercase in Hab, Hbc. congruence.
Qed.

(** ** Lookup *)

Lemma find_equivalent (k1 k2 : string) (om : OptionsMap) :
  equivalent k1 k2 = true -> find k1 om = find k2 om.
Proof.
  intros H. apply equivalent_lowercase in H.
  induction om as [|[k o] rest IH]; [reflexivity|]. cbn [find].
  rewrite (less_lowercase_l k1 k2 H k), (less_lowercase_r k1 k2 H k), IH.
  reflexivity.
Qed.

Lemma find_sound (k : string) (om : OptionsMap) (o : Option) :
  find k om = Some o ->
  exists k', In (k', o) om /\ equivalent k k' = true.
Proof.
  induction om as [|[k0 o0] rest IH]; cbn [find]; [discriminate|].
  destruct (CaseInsensitiveLess k k0) eqn:E1; [discriminate|].
  destruct (CaseInsensitiveLess k0 k) eqn:E2.
  - intros H. destruct (IH H) as (k' & Hin & He).
    exists k'. split; [right; exact Hin|exact He].
  - intros [= <-]. exists k0. split; [left; reflexivity|].
    unfold equivalent. rewrite E1, E2. reflexivity.
Qed.

(** X10.  In a registry built by registrations, in whatever order and with
    whatever names, the entries stand in ascending order of their names,
    and looking a name up finds exactly the cell kept under the key that
    equals the name after lower-casing; when there is no such key the
    lookup finds nothing. *)
Theorem registry_lookup (entries : list (string * Option)) (k : string)
        (o : Option) :
  let om := Options (fold_left register entries process_start) in
  ordered om
  /\ (find k om = Some o
      <-> exists k', In (k', o) om /\ lowercase k' = lowercase k)
  /\ (find k om = None
      <-> forall e, In e om -> lowercase (fst e) <> lowercase k).
Proof.
  cbv zeta.
  assert (Hord : ordered (Options (fold_left register entries process_start)))
    by (apply registered_ordered; constructor).
  split; [exact Hord|]. split; split.
  - intros H. destruct (find_sound _ _ _ H) as (k' & Hin & He).
    exists k'. split; [exact Hin|].
    symmetry. apply equivalent_lowercase, He.
  - intros (k' & Hin & He).
    apply (find_complete _ Hord k k' o Hin).
    apply equivalent_lowercase. symmetry. exact He.
  - intros Hnone [k' o'] Hin He. cbn [fst] in He.
    assert (Hsome : find k (Options (fold_left register entries process_start))
                    = Some o').
    { apply (find_complete _ Hord k k' o' Hin).
      apply equivalent_lowercase. symmetry. exact He. }
    congruence.
  - intros Hno.
    destruct (find k (Options (fold_left register entries process_start)))
      as [o'|] eqn:E; [|reflexivity].
    destruct (find_sound _ _ _ E) as (k' & Hin & He).
    exfalso. apply (Hno (k', o') Hin). cbn [fst].
    symmetry. apply equivalent_lowercase, He.
Qed.

(** ** One registration *)

Lemma subscript_length (k : string) (g : Option -> Option)
      (om : OptionsMap) :
  List.length (operator_subscript k g om)
  = match find k om with
    | Some _ => List.length om
    | None => S (List.length om)
    end.
Proof.
  induction om as [|[k' o] rest IH]; cbn [operator_subscript find];
    [reflexivity|].
  destruct (CaseInsensitiveLess k k'); [reflexivity|].
  destruct (CaseInsensitiveLess k' k); [|reflexivity].
  cbn [List.length]. rewrite IH. destruct (find k rest); reflexivity.
Qed.

Lemma subscript_names (k : string) (g : Option -> Option) (om : OptionsMap) :
  find k om <> None ->
  map fst (operator_subscript k g om) = map fst om.
Proof.
  induction om as [|[k' o] rest IH]; cbn [operator_subscript find];
    [intros H; contradiction H; reflexivity|].
  destruct (CaseInsensitiveLess k k');
    [intros H; contradiction H; reflexivity|].
  destruct (CaseInsensitiveLess k' k); [|reflexivity].
  intros H. cbn [map fst]. rewrite (IH H). reflexivity.
Qed.

(** X11.  One statement [o[name] << opt]: afterwards the name, in any
    spelling of upper and lower case, is looked up to a copy of [opt]
    stamped with the value the counter had, every other lookup gives what it
    gave before, and the counter has advanced by one (modulo 2^64).  The
    registry grows by one entry when the name was no key yet; otherwise it
    keeps its size and its keys as first spelt, and the cell under the key
    is overwritten. *)
Theorem register_read_back (st : State) (name : string) (opt : Option)
        (k : string) :
  let st' := register st (name, opt) in
  insert_order st' = ((insert_order st + 1) mod 2 ^ 64)%N
  /\ find k (Options st')
     = (if equivalent name k then Some (set_idx opt (insert_order st))
        else find k (Options st))
  /\ List.length (Options st')
     = match find name (Options st) with
       | Some _ => List.length (Options st)
       | None => S (List.length (Options st))
       end
  /\ (find name (Options st) <> None ->
      map fst (Options st') = map fst (Options st)).
Proof.
  cbv zeta. split; [reflexivity|]. split; [|split].
  - destruct (equivalent name k) eqn:E.
    + rewrite <- (find_equivalent name k _ E). apply find_register_same.
    + apply find_register_other, E.
  - cbn [register Options]. apply subscript_length.
  - cbn [register Options]. apply subscript_names.
Qed.

(** ** A catalogue of any content *)

Lemma registered_length (entries : list (string * Option)) :
  distinct_names (map fst entries) = true ->
  forall st,
    (forall name, In name (map fst entries) ->
                  find name (Options st) = None) ->
    List.length (Options (fold_left register entries st))
    = (List.length (Options st) + List.length entries)%nat.
Proof.
  induction entries as [|[k o] entries IH]; intros Hd st Hnew.
  - cbn. lia.
  - cbn [map fst distinct_names] in Hd. apply andb_true_iff in Hd.
    destruct Hd as [Hk Hd]. cbn [fold_left List.length].
    rewrite (IH Hd).
    + cbn [register Options]. rewrite subscript_length.
      rewrite (Hnew k (or_introl eq_refl)). cbn [List.length]. lia.
    + intros name Hin. rewrite find_register_other.
      * apply Hnew. right. exact Hin.
      * rewrite forallb_forall in Hk. apply negb_true_iff, Hk, Hin.
Qed.

(** X12.  Statements [o[name] << opt] for names that are pairwise distinct
    keys, run on an empty map with the counter at [c] and without the
    counter wrapping: the map has one entry per statement, the name of the
    [i]-th statement is looked up to the [i]-th cell stamped [c + i], and
    the indices in the map are exactly [c .. c + n - 1], each once. *)
Theorem registration_indices (entries : list (string * Option)) (c : N) :
  distinct_names (map fst entries) = true ->
  (c + N.of_nat (List.length entries) <= 2 ^ 64)%N ->
  let om := Options (fold_left register entries (mkState c [])) in
  List.length om = List.length entries
  /\ (forall i name opt,
        nth_error entries i = Some (name, opt) ->
        find name om = Some (set_idx opt (c + N.of_nat i)))
  /\ Permutation (map entry_idx om)
                 (map (fun i => (c + N.of_nat i)%N)
                      (seq 0 (List.length entries))).
Proof.
  intros Hd Hc. cbv zeta.
  assert (Hlen : List.length
                   (Options (fold_left register entries (mkState c [])))
                 = List.length entries)
    by (rewrite (registered_length entries Hd); [reflexivity|reflexivity]).
  assert (Hfind : forall i name opt,
             nth_error entries i = Some (name, opt) ->
             find name (Options (fold_left register entries (mkState c [])))
             = Some (set_idx opt (c + N.of_nat i)))
    by (intros i name opt Hi;
        exact (find_registered entries Hd (mkState c []) Hc i name opt Hi)).
  split; [exact Hlen|]. split; [exact Hfind|].
  symmetry. apply NoDup_Permutation_bis.
  - apply Injective_map_NoDup; [|apply seq_NoDup].
    intros x y H. lia.
  - rewrite !length_map, length_seq, Hlen. apply Nat.le_refl.
  - intros x Hx. apply in_map_iff in Hx. destruct Hx as (i & <- & Hi).
    apply in_seq in Hi.
    destruct (nth_error entries i) as [[name opt]|] eqn:E;
      [|apply nth_error_None in E; lia].
    destruct (find_sound _ _ _ (Hfind i name opt E)) as (k' & Hin & _).
    apply in_map_iff. exists (k', set_idx opt (c + N.of_nat i)).
    split; [reflexivity|exact Hin].
Qed.

Lemma registration_indices_witness :
  let entries := [ ("Ponder", Option_bool false None);
                   ("Hash", Option_spin 16 1 1024 (Some on_hash_size));
                   ("Clear Hash", Option_button (Some on_clear_hash)) ] in
  let om := Options (fold_left register entries (mkState 41 [])) in
  List.length om = 3%nat
  /\ (forall i name opt,
        nth_error entries i = Some (name, opt) ->
        find name om = Some (set_idx opt (41 + N.of_nat i)))
  /\ Permutation (map entry_idx om) [41; 42; 43]%N.
Proof.
  apply (registration_indices
           [ ("Ponder", Option_bool false None);
             ("Hash", Option_spin 16 1 1024 (Some on_hash_size));
             ("Clear Hash", Option_button (Some on_clear_hash)) ] 41).
  - reflexivity.
  - vm_compute. discriminate.
Defined.

(** ** The catalogue of [init] *)

(** X13.  After [init] the cells are exactly the constructed ones: every
    cell holds its default as current value and has one of the four types,
    a check cell holds true or false, and a cell that is not a spin cell
    has both bounds at 0. *)
Theorem init_cells_at_default (hw : N) (Is64Bit : bool) :
  Forall (fun e =>
            let o := snd e in
            currentValue o = defaultValue o
            /\ kind_of o <> None
            /\ (type o = "check" ->
                currentValue o = "true" \/ currentValue o = "false")
            /\ (type o <> "spin" -> min o = 0 /\ max o = 0))
         (Options (init hw Is64Bit process_start)).
Proof.
  apply Forall_forall. intros e He. unfold init in He.
  apply registered_cells in He. destruct He as [[]|(opt & i & Hopt & He)].
  rewrite He. clear He.
  change (currentValue opt = defaultValue opt
          /\ kind_of opt <> None
          /\ (type opt = "check" ->
              currentValue opt = "true" \/ currentValue opt = "false")
          /\ (type opt <> "spin" -> min opt = 0 /\ max opt = 0)).
  revert opt Hopt. apply Forall_forall. cbn [catalog map snd].
  repeat (apply Forall_cons;
          [split; [reflexivity|];
           split; [discriminate|];
           split; [intros H; first [discriminate H|left; reflexivity
                                   |right; reflexivity]|];
           intros H; first [split; reflexivity
                           |contradiction H; reflexivity]|]).
  apply Forall_nil.
Qed.

Lemma threads_cell (hw : N) (Is64Bit : bool) :
  let n := if N.eqb hw 0 then 1%N else hw in
  find "Threads" (Options (init hw Is64Bit process_start))
  = Some (set_idx (Option_spin (int_of_unsigned n) 1 512 (Some on_threads)) 3).
Proof.
  cbv zeta. unfold init.
  rewrite (find_registered _) with
    (i := 3%nat)
    (opt := Option_spin (int_of_unsigned (if N.eqb hw 0 then 1%N else hw))
                        1 512 (Some on_threads)).
  - reflexivity.
  - rewrite catalog_names_of. apply catalog_names_distinct.
  - vm_compute. discriminate.
  - reflexivity.
Qed.

Lemma int_of_unsigned_range (n : N) :
  INT_MIN <= int_of_unsigned n <= INT_MAX.
Proof.
  unfold int_of_unsigned, INT_MIN, INT_MAX.
  pose proof (Z.mod_pos_bound (Z.of_N n) (2 ^ 32) ltac:(lia)).
  destruct (Z.ltb_spec (Z.of_N n mod 2 ^ 32) (2 ^ 31)); lia.
Qed.

(** X14.  Which machines [init] is safe on: for a count of hardware threads
    that fits an [unsigned int], all spin cells of the catalogue hold a
    value within their bounds exactly when the count is at most 512 (a
    count of 0 is replaced by 1). *)
Theorem init_spin_cells_in_bounds_iff (hw : N) (Is64Bit : bool) :
  (hw < 2 ^ 32)%N ->
  (Forall (fun e => type (snd e) = "spin" -> spin_invariant (snd e) = true)
          (Options (init hw Is64Bit process_start))
   <-> (hw <= 512)%N).
Proof.
  intros Hhw. split.
  - intros Hall.
    pose proof (threads_cell hw Is64Bit) as Ht. cbv zeta in Ht.
    destruct (find_sound _ _ _ Ht) as (k' & Hin & _).
    pose proof (proj1 (Forall_forall _ _) Hall _ Hin eq_refl) as Hinv.
    cbn [snd] in Hinv. rewrite spin_invariant_set_idx in Hinv.
    unfold spin_invariant in Hinv.
    cbn [Option_spin min max currentValue] in Hinv.
    rewrite (stoi_to_string _ (int_of_unsigned_range _)) in Hinv.
    apply andb_true_iff in Hinv. destruct Hinv as [_ Hinv].
    apply andb_true_iff in Hinv. destruct Hinv as [Hlo Hhi].
    apply Z.leb_le in Hlo, Hhi.
    unfold int_of_unsigned in Hlo, Hhi.
    destruct (N.eqb_spec hw 0) as [->|Hne]; [lia|].
    rewrite Z.mod_small in Hlo, Hhi by lia.
    destruct (Z.ltb_spec (Z.of_N hw) (2 ^ 31)); lia.
  - intros Hle. apply Forall_forall. intros [name o] Hin Hs.
    exact (init_spin_invariant hw Is64Bit Hle name o Hin Hs).
Qed.

Lemma init_spin_cells_in_bounds_iff_witness :
  (Forall (fun e => type (snd e) = "spin" -> spin_invariant (snd e) = true)
          (Options (init 8 true process_start))
   <-> (8 <= 512)%N)
  /\ (Forall (fun e => type (snd e) = "spin" -> spin_invariant (snd e) = true)
             (Options (init 768 true process_start))
      <-> (768 <= 512)%N).
Proof.
  split.
  - apply (init_spin_cells_in_bounds_iff 8 true). reflexivity.
  - apply (init_spin_cells_in_bounds_iff 768 true). reflexivity.
Defined.

(** ** The printer on any registry *)

Lemma existsb_first_with_idx (i : N) (om : OptionsMap) :
  existsb (N.eqb i) (map entry_idx om)
  = match first_with_idx i om with Some _ => true | None => false end.
Proof.
  induction om as [|[name o] rest IH]; [reflexivity|].
  cbn [map existsb first_with_idx]. unfold entry_idx at 1. cbn [snd].
  rewrite N.eqb_sym. destruct (N.eqb (idx o) i); [reflexivity|exact IH].
Qed.

Lemma visited_indices_filter (om : OptionsMap) (l : list N) :
  map entry_idx (flat_map (found om) l)
  = filter (fun i => existsb (N.eqb i) (map entry_idx om)) l.
Proof.
  induction l as [|i l IH]; [reflexivity|].
  cbn [flat_map filter]. rewrite map_app, IH, existsb_first_with_idx.
  unfold found.
  destruct (first_with_idx i om) as [e|] eqn:E; [|reflexivity].
  cbn [map app]. rewrite (proj2 (first_with_idx_In i om e E)). reflexivity.
Qed.

(** X15.  On any registry, well numbered or not, the printer writes the
    lines of entries of the registry and of nothing else, one line for each
    index below the size that some cell carries, in ascending order of the
    index: so never more lines than entries, never two lines for one
    index, and no line for a cell whose index is not below the size. *)
Theorem print_visits_indices_below_size (om : OptionsMap) :
  operator_print om = join (map print_entry (visited om))
  /\ incl (visited om) om
  /\ map entry_idx (visited om)
     = filter (fun i => existsb (N.eqb i) (map entry_idx om))
              (indices (List.length om))
  /\ (List.length (visited om) <= List.length om)%nat.
Proof.
  pose proof (visited_indices_filter om (indices (List.length om))) as Hidx.
  fold (visited om) in Hidx.
  split; [|split; [|split]].
  - unfold operator_print. rewrite (print_from_visits om _ 0). reflexivity.
  - apply visited_incl.
  - exact Hidx.
  - rewrite <- (length_map entry_idx (visited om)), Hidx.
    rewrite <- (indices_length (List.length om)) at 2.
    apply filter_length_le.
Qed.

(** ** The printer after assignments *)

Lemma print_option_frame (name : string) (o o' : Option) :
  type o' = type o -> defaultValue o' = defaultValue o ->
  min o' = min o -> max o' = max o ->
  print_option name o' = print_option name o.
Proof.
  intros H1 H2 H3 H4. unfold print_option. rewrite H1, H2, H3, H4.
  reflexivity.
Qed.

Lemma first_with_idx_subscript (k : string) (g : Option -> Option)
      (om : OptionsMap) (i : N) :
  find k om <> None ->
  (forall o, idx (g o) = idx o) ->
  (forall name o, print_option name (g o) = print_option name o) ->
  option_map print_entry (first_with_idx i (operator_subscript k g om))
  = option_map print_entry (first_with_idx i om).
Proof.
  intros Hk Hidx Hprint.
  induction om as [|[k' o] rest IH]; cbn [operator_subscript find] in *;
    [contradiction Hk; reflexivity|].
  destruct (CaseInsensitiveLess k k'); [contradiction Hk; reflexivity|].
  destruct (CaseInsensitiveLess k' k); cbn [first_with_idx].
  - destruct (N.eqb (idx o) i); [reflexivity|exact (IH Hk)].
  - rewrite Hidx. destruct (N.eqb (idx o) i); [|reflexivity].
    cbn [option_map]. unfold print_entry. cbn [fst snd].
    rewrite Hprint. reflexivity.
Qed.

Lemma print_from_ext (om om' : OptionsMap) :
  (forall i, option_map print_entry (first_with_idx i om')
             = option_map print_entry (first_with_idx i om)) ->
  forall count i, print_from count i om' = print_from count i om.
Proof.
  intros H. induction count as [|count IH]; intros i; [reflexivity|].
  cbn [print_from]. rewrite IH. f_equal.
  specialize (H i).
  destruct (first_with_idx i om') as [[n' o']|],
           (first_with_idx i om) as [[n o]|]; cbn [option_map] in H;
    try discriminate; [|reflexivity].
  exact (f_equal (fun x => match x with
                           | Some s => s
                           | None => EmptyString
                           end) H).
Qed.

Lemma print_assign_at (k v : string) (om : OptionsMap) :
  find k om <> None ->
  operator_print (assign_at k v om) = operator_print om.
Proof.
  intros Hk. unfold operator_print, assign_at.
  rewrite subscript_length.
  destruct (find k om) as [slot0|] eqn:E; [|contradiction Hk; reflexivity].
  apply print_from_ext. intros i. apply first_with_idx_subscript.
  - rewrite E. discriminate.
  - intros o. apply (assign_frame o v).
  - intros name o. destruct (assign_frame o v) as (H1 & H2 & H3 & H4 & _).
    apply print_option_frame; assumption.
Qed.

Lemma find_assign_at (k v k2 : string) (om : OptionsMap) :
  find k2 om <> None -> find k2 (assign_at k v om) <> None.
Proof.
  intros H. unfold assign_at. destruct (equivalent k k2) eqn:E.
  - rewrite <- (find_equivalent k k2 _ E), find_subscript_same. discriminate.
  - rewrite find_subscript_other by exact E. exact H.
Qed.

(** X16.  Assignments never show in the print-out: after any number of
    assignments [om[k] = v] to names that are keys of the registry, with
    whatever texts, the printer writes exactly what it wrote before (the
    defaults, not the current values), and the registry has the same
    names. *)
Theorem print_unchanged_by_assignments (assignments : list (string * string)) :
  forall om : OptionsMap,
    (forall k v, In (k, v) assignments -> find k om <> None) ->
    let om' := fold_left (fun m kv => assign_at (fst kv) (snd kv) m)
                         assignments om in
    operator_print om' = operator_print om
    /\ map fst om' = map fst om.
Proof.
  induction assignments as [|[k v] rest IH]; intros om Hkeys; cbv zeta.
  - split; reflexivity.
  - cbn [fold_left fst snd].
    assert (Hk : find k om <> None) by (apply (Hkeys k v); left; reflexivity).
    destruct (IH (assign_at k v om)) as [Hp Hn].
    + intros k2 v2 Hin. apply find_assign_at. apply (Hkeys k2 v2).
      right. exact Hin.
    + rewrite Hp, Hn. split; [apply print_assign_at, Hk|].
      unfold assign_at. apply subscript_names, Hk.
Qed.

Lemma print_unchanged_by_assignments_witness :
  let om := Options (init 8 true process_start) in
  let om' := fold_left (fun m kv => assign_at (fst kv) (snd kv) m)
                       [("hash", "512"); ("PONDER", "true");
                        ("Threads", "0"); ("SyzygyPath", "/tb")] om in
  (operator_print om' = operator_print om /\ map fst om' = map fst om)
  /\ option_map currentValue (find "Hash" om') = Some "512"
  /\ option_map currentValue (find "Threads" om') = Some "8".
Proof.
  cbv zeta. split; [|split; vm_compute; reflexivity].
  apply (print_unchanged_by_assignments
           [("hash", "512"); ("PONDER", "true");
            ("Threads", "0"); ("SyzygyPath", "/tb")]
           (Options (init 8 true process_start))).
  intros k v Hin.
  repeat (destruct Hin as [[= <- <-]|Hin]; [vm_compute; discriminate|]).
  destruct Hin.
Defined.
